(** * The cluster coordinator of [src/cluster/coordinator.py]

    A shallow embedding of [ClusterCoordinator]: the node registry, the job
    store, the three work queues, the dispatcher loop, the completion and
    failure handlers, the liveness monitor and the retention sweeper.

    Modelling conventions.
    - Python dictionaries holding job records are objects shared between the
      job maps and the queues.  The job objects live in a store
      ([job_store], a list indexed by allocation order) and the maps and
      queues hold references into it.
    - [self.nodes] is an insertion-ordered dictionary; it is an association
      list here, because the order decides ties in [select_best_node] and the
      order of the liveness sweep.
    - [time.time()] readings and the other floating point quantities are
      exact rationals ([Q]); each operation receives the clock reading it
      makes as an argument.
    - A handler runs without interruption between two suspension points of
      the event loop, so each handler is one state transition; the
      dispatcher's [assign_job_to_node] is split at its worker call. *)

From Stdlib Require Import ZArith QArith String Ascii List Sorted Lia.
From stdpp Require Import gmap strings list fin_maps pretty.

Local Open Scope Q_scope.

(** ** Scalars *)

(** [int(x)] of a Python float: truncation towards zero. *)
Definition int_of_Q (x : Q) : Z := Z.quot (Qnum x) (Zpos (Qden x)).

Definition Qltb (x y : Q) : bool := negb (Qle_bool y x).

(** Opaque structured documents ([parameters], [result]): raw text. *)
Definition json := string.

(** [data.get('node_id')]: the identifier, or [None] when the payload has no
    such field.  [job['assigned_node']] is [None] until the job is assigned. *)
Definition node_id := option string.

(** ** Records *)

Inductive node_status := online | offline.

Inductive job_status := queued | assigned | completed | failed.

Record node := mk_node {
  node_ident : node_id;
  node_address : option string;
  node_capabilities : list string;
  node_gpu_enabled : bool;
  node_worker_threads : Z;
  node_state : node_status;
  node_last_heartbeat : Q;
  node_jobs_completed : nat;
  node_average_job_time : Q;
  node_load_score : Q
}.

(** Keys that a job dictionary gains later ([assigned_at], [completed_at],
    [result], [execution_time], [error], [failed_at]) are options: [None]
    is the absent key. *)
Record job := mk_job {
  job_ident : string;
  job_type : string;
  job_priority : string;
  job_parameters : json;
  job_submitted_at : Q;
  job_state : job_status;
  job_assigned_node : node_id;
  job_gpu_preferred : bool;
  job_assigned_at : option Q;
  job_completed_at : option Q;
  job_result : option json;
  job_execution_time : option Q;
  job_error : option string;
  job_failed_at : option Q
}.

Record cluster_stats := mk_stats {
  total_calculations : nat;
  gpu_calculations : nat;
  cpu_calculations : nat;
  start_time : Q;
  nodes_online : nat;
  average_response_time : Q
}.

(** The messages handed to [broadcast_update]; each carries the snapshot that
    [json.dumps] serialises at the call. *)
Inductive event :=
| node_registered (n : node) (st : cluster_stats)
| node_offline (nid : node_id) (st : cluster_stats)
| job_completed (j : job) (st : cluster_stats)
| job_failed (j : job) (err : string).

(** The coordinator object.  [in_flight] is the dispatcher's local variable
    [job] while it awaits the worker's answer, and [events] is the sequence
    of [broadcast_update] calls, oldest first. *)
Record coordinator := mk_coordinator {
  nodes : list (node_id * node);
  job_store : list job;
  active_jobs : gmap string nat;
  completed_jobs : gmap string nat;
  thread_queue : list nat;
  collatz_queue : list nat;
  priority_queue : list nat;
  stats : cluster_stats;
  in_flight : option nat;
  events : list event
}.

(** Field updates. *)
Definition with_nodes (ns : list (node_id * node)) (s : coordinator) :=
  mk_coordinator ns (job_store s) (active_jobs s) (completed_jobs s)
    (thread_queue s) (collatz_queue s) (priority_queue s) (stats s)
    (in_flight s) (events s).
Definition with_job_store (h : list job) (s : coordinator) :=
  mk_coordinator (nodes s) h (active_jobs s) (completed_jobs s)
    (thread_queue s) (collatz_queue s) (priority_queue s) (stats s)
    (in_flight s) (events s).
Definition with_active_jobs (m : gmap string nat) (s : coordinator) :=
  mk_coordinator (nodes s) (job_store s) m (completed_jobs s)
    (thread_queue s) (collatz_queue s) (priority_queue s) (stats s)
    (in_flight s) (events s).
Definition with_completed_jobs (m : gmap string nat) (s : coordinator) :=
  mk_coordinator (nodes s) (job_store s) (active_jobs s) m
    (thread_queue s) (collatz_queue s) (priority_queue s) (stats s)
    (in_flight s) (events s).
Definition with_thread_queue (q : list nat) (s : coordinator) :=
  mk_coordinator (nodes s) (job_store s) (active_jobs s) (completed_jobs s)
    q (collatz_queue s) (priority_queue s) (stats s)
    (in_flight s) (events s).
Definition with_collatz_queue (q : list nat) (s : coordinator) :=
  mk_coordinator (nodes s) (job_store s) (active_jobs s) (completed_jobs s)
    (thread_queue s) q (priority_queue s) (stats s)
    (in_flight s) (events s).
Definition with_priority_queue (q : list nat) (s : coordinator) :=
  mk_coordinator (nodes s) (job_store s) (active_jobs s) (completed_jobs s)
    (thread_queue s) (collatz_queue s) q (stats s)
    (in_flight s) (events s).
Definition with_stats (st : cluster_stats) (s : coordinator) :=
  mk_coordinator (nodes s) (job_store s) (active_jobs s) (completed_jobs s)
    (thread_queue s) (collatz_queue s) (priority_queue s) st
    (in_flight s) (events s).
Definition with_in_flight (f : option nat) (s : coordinator) :=
  mk_coordinator (nodes s) (job_store s) (active_jobs s) (completed_jobs s)
    (thread_queue s) (collatz_queue s) (priority_queue s) (stats s)
    f (events s).

(** [__init__], started at clock reading [now]. *)
Definition init (now : Q) : coordinator :=
  mk_coordinator [] [] ∅ ∅ [] [] []
    (mk_stats 0 0 0 now 0 0) None [].

(** ** The node dictionary *)

Fixpoint dict_get (k : node_id) (d : list (node_id * node)) : option node :=
  match d with
  | [] => None
  | (k', v) :: d' => if decide (k' = k) then Some v else dict_get k d'
  end.

(** [d[k] = v]: an existing key keeps its position, a new key goes last. *)
Fixpoint dict_set (k : node_id) (v : node) (d : list (node_id * node))
  : list (node_id * node) :=
  match d with
  | [] => [(k, v)]
  | (k', v') :: d' =>
      if decide (k' = k) then (k, v) :: d' else (k', v') :: dict_set k v d'
  end.

Definition values (d : list (node_id * node)) : list node := map snd d.

Definition is_online (n : node) : bool :=
  match node_state n with online => true | offline => false end.

(** [[n for n in self.nodes.values() if n['status'] == 'online']] *)
Definition online_nodes (d : list (node_id * node)) : list node :=
  List.filter is_online (values d).

(** [self.broadcast_update(message)] *)
Definition broadcast_update (e : event) (s : coordinator) : coordinator :=
  mk_coordinator (nodes s) (job_store s) (active_jobs s) (completed_jobs s)
    (thread_queue s) (collatz_queue s) (priority_queue s) (stats s)
    (in_flight s) (events s ++ [e]).

Definition set_nodes_online (k : nat) (st : cluster_stats) : cluster_stats :=
  mk_stats (total_calculations st) (gpu_calculations st)
    (cpu_calculations st) (start_time st) k (average_response_time st).

(** ** Request payloads

    A field is [None] when the request body omits it; the handlers supply
    the defaults of their [data.get] calls. *)

Record register_data := mk_register_data {
  reg_node_id : node_id;
  reg_address : option string;
  reg_capabilities : option (list string);
  reg_gpu_enabled : option bool;
  reg_worker_threads : option Z
}.

Record heartbeat_data := mk_heartbeat_data {
  hb_node_id : node_id;
  hb_load_score : option Q
}.

Record submit_data := mk_submit_data {
  sub_type : option string;
  sub_priority : option string;
  sub_parameters : option json;
  sub_gpu_preferred : option bool
}.

(** An HTTP answer: status code and the [status] field of its body. *)
Record response := mk_response {
  http_code : Z;
  body_status : string
}.

(** ** Registration and heartbeat *)

Definition count_online (d : list (node_id * node)) : nat :=
  length (online_nodes d).

(** [register_node] *)
Definition register_node (now : Q) (data : register_data) (s : coordinator)
  : coordinator * response :=
  let node_info :=
    mk_node (reg_node_id data) (reg_address data)
      (default [] (reg_capabilities data))
      (default false (reg_gpu_enabled data))
      (default 1%Z (reg_worker_threads data))
      online now 0 0 0 in
  let s1 := with_nodes (dict_set (reg_node_id data) node_info (nodes s)) s in
  let s2 := with_stats (set_nodes_online (count_online (nodes s1)) (stats s1)) s1 in
  (broadcast_update (node_registered node_info (stats s2)) s2,
   mk_response 200 "registered").

Definition refresh (now : Q) (load : Q) (n : node) : node :=
  mk_node (node_ident n) (node_address n) (node_capabilities n)
    (node_gpu_enabled n) (node_worker_threads n)
    online now (node_jobs_completed n) (node_average_job_time n) load.

(** [heartbeat] *)
Definition heartbeat (now : Q) (data : heartbeat_data) (s : coordinator)
  : coordinator * response :=
  match dict_get (hb_node_id data) (nodes s) with
  | Some n =>
      (with_nodes
         (dict_set (hb_node_id data)
            (refresh now (default 0 (hb_load_score data)) n) (nodes s)) s,
       mk_response 200 "acknowledged")
  | None => (s, mk_response 400 "unknown_node")
  end.

(** ** Submission *)

(** [f"job_{int(time.time() * 1000)}_{len(self.active_jobs)}"] *)
Definition make_job_id (ms : Z) (n : nat) : string :=
  "job_" +:+ pretty ms +:+ "_" +:+ pretty n.

Definition new_job_id (now : Q) (s : coordinator) : string :=
  make_job_id (int_of_Q (now * 1000)) (size (active_jobs s)).

Inductive queue_class := priority_class | collatz_class | thread_class.

(** The queue a job belongs to, as the [if]/[elif]/[else] of [submit_job]
    and of the re-enqueue in [assign_jobs] decides it. *)
Definition class_of (j : job) : queue_class :=
  if decide (job_priority j = "high") then priority_class
  else if decide (job_type j = "collatz") then collatz_class
  else thread_class.

(** [await queue.put(job)] on the queue of the job's class. *)
Definition enqueue (j : job) (r : nat) (s : coordinator) : coordinator :=
  match class_of j with
  | priority_class => with_priority_queue (priority_queue s ++ [r]) s
  | collatz_class => with_collatz_queue (collatz_queue s ++ [r]) s
  | thread_class => with_thread_queue (thread_queue s ++ [r]) s
  end.

Definition Qsum (l : list Q) : Q := fold_right Qplus 0 l.

Definition Qmax_py (a b : Q) : Q := if Qltb a b then b else a.

(** [estimate_wait_time] *)
Definition estimate_wait_time (j : job) (s : coordinator) : Q :=
  let available_nodes := online_nodes (nodes s) in
  match available_nodes with
  | [] => 300
  | _ :: _ =>
      let gpu_nodes := List.filter node_gpu_enabled available_nodes in
      match job_gpu_preferred j, gpu_nodes with
      | true, _ :: _ =>
          Qmax_py (Qsum (map node_average_job_time gpu_nodes)
                   / inject_Z (Z.of_nat (length gpu_nodes))) 10
      | _, _ =>
          Qmax_py (Qsum (map node_average_job_time available_nodes)
                   / inject_Z (Z.of_nat (length available_nodes))) 30
      end
  end.

Record submit_response := mk_submit_response {
  resp_job_id : string;
  resp_status : string;
  resp_estimated_wait_time : Q
}.

Definition new_job (now : Q) (data : submit_data) (s : coordinator) : job :=
  mk_job (new_job_id now s)
    (default "thread" (sub_type data))
    (default "normal" (sub_priority data))
    (default "{}" (sub_parameters data))
    now queued None
    (default true (sub_gpu_preferred data))
    None None None None None None.

(** [submit_job].  The new dictionary is allocated at the end of the store;
    the active map and one queue receive the reference to it. *)
Definition submit_job (now : Q) (data : submit_data) (s : coordinator)
  : coordinator * submit_response :=
  let j := new_job now data s in
  let r := length (job_store s) in
  let s1 := with_job_store (job_store s ++ [j]) s in
  let s2 := with_active_jobs (<[job_ident j := r]> (active_jobs s1)) s1 in
  let s3 := enqueue j r s2 in
  (s3, mk_submit_response (job_ident j) "queued" (estimate_wait_time j s3)).

(** ** Node selection *)

(** [list.sort(key=...)] is stable: an element goes in front of the elements
    of equal key that followed it. *)
Fixpoint insert_by_load (n : node) (l : list node) : list node :=
  match l with
  | [] => [n]
  | m :: l' =>
      if Qltb (node_load_score m) (node_load_score n)
      then m :: insert_by_load n l'
      else n :: m :: l'
  end.

Definition sort_by_load (l : list node) : list node :=
  fold_right insert_by_load [] l.

(** [select_best_node] *)
Definition select_best_node (j : job) (s : coordinator) : option node :=
  let available_nodes := online_nodes (nodes s) in
  match available_nodes with
  | [] => None
  | _ :: _ =>
      let gpu_nodes := List.filter node_gpu_enabled available_nodes in
      let available_nodes :=
        match job_gpu_preferred j, gpu_nodes with
        | true, _ :: _ => gpu_nodes
        | _, _ => available_nodes
        end in
      head (sort_by_load available_nodes)
  end.

(** ** Completion and failure *)

(** What a handler does: it returns, or an exception leaves it. *)
Inductive outcome := returned | raised (e : string).

Definition set_job (r : nat) (j : job) (s : coordinator) : coordinator :=
  with_job_store (<[r := j]> (job_store s)) s.

(** Lines 233-235 of [handle_job_completion]. *)
Definition mark_completed (now : Q) (result : json) (j : job) : job :=
  mk_job (job_ident j) (job_type j) (job_priority j) (job_parameters j)
    (job_submitted_at j) completed (job_assigned_node j)
    (job_gpu_preferred j) (job_assigned_at j) (Some now) (Some result)
    (job_execution_time j) (job_error j) (job_failed_at j).

Definition set_execution_time (t : Q) (j : job) : job :=
  mk_job (job_ident j) (job_type j) (job_priority j) (job_parameters j)
    (job_submitted_at j) (job_state j) (job_assigned_node j)
    (job_gpu_preferred j) (job_assigned_at j) (job_completed_at j)
    (job_result j) (Some t) (job_error j) (job_failed_at j).

(** The incremental mean of lines 245-248; [k] is [jobs_completed] after its
    increment. *)
Definition incremental_mean (avg : Q) (k : nat) (t : Q) : Q :=
  (avg * inject_Z (Z.of_nat (k - 1)) + t) / inject_Z (Z.of_nat k).

Definition record_completion (t : Q) (n : node) : node :=
  let k := S (node_jobs_completed n) in
  mk_node (node_ident n) (node_address n) (node_capabilities n)
    (node_gpu_enabled n) (node_worker_threads n) (node_state n)
    (node_last_heartbeat n) k
    (incremental_mean (node_average_job_time n) k t) (node_load_score n).

Definition incr_total (st : cluster_stats) : cluster_stats :=
  mk_stats (S (total_calculations st)) (gpu_calculations st)
    (cpu_calculations st) (start_time st) (nodes_online st)
    (average_response_time st).
Definition incr_gpu (st : cluster_stats) : cluster_stats :=
  mk_stats (total_calculations st) (S (gpu_calculations st))
    (cpu_calculations st) (start_time st) (nodes_online st)
    (average_response_time st).
Definition incr_cpu (st : cluster_stats) : cluster_stats :=
  mk_stats (total_calculations st) (gpu_calculations st)
    (S (cpu_calculations st)) (start_time st) (nodes_online st)
    (average_response_time st).

(** [str(e)] of the [KeyError] for a node id: the [repr] of the key. *)
Definition repr_node_id (nid : node_id) : string :=
  match nid with
  | Some k => "'" +:+ k +:+ "'"
  | None => "None"
  end.

(** [handle_job_completion].  A missing [assigned_at] key raises at line 236,
    after the job has left the active map; an unregistered node raises in
    the condition of line 252 when the job prefers a GPU. *)
Definition handle_job_completion (now : Q) (job_id : string) (result : json)
  (s : coordinator) : coordinator * outcome :=
  match active_jobs s !! job_id with
  | None => (s, returned)
  | Some r =>
      match job_store s !! r with
      | None => (s, returned)
      | Some j0 =>
          let s1 := with_active_jobs (delete job_id (active_jobs s)) s in
          let j1 := mark_completed now result j0 in
          match job_assigned_at j1 with
          | None => (set_job r j1 s1, raised "'assigned_at'")
          | Some t0 =>
              let t := now - t0 in
              let j := set_execution_time t j1 in
              let s2 := set_job r j s1 in
              let s3 :=
                with_completed_jobs (<[job_id := r]> (completed_jobs s2)) s2 in
              let nid := job_assigned_node j in
              let s4 :=
                match dict_get nid (nodes s3) with
                | Some n =>
                    with_nodes (dict_set nid (record_completion t n) (nodes s3)) s3
                | None => s3
                end in
              let s5 := with_stats (incr_total (stats s4)) s4 in
              if job_gpu_preferred j then
                match dict_get nid (nodes s5) with
                | None => (s5, raised (repr_node_id nid))
                | Some n =>
                    let s6 :=
                      if node_gpu_enabled n
                      then with_stats (incr_gpu (stats s5)) s5
                      else with_stats (incr_cpu (stats s5)) s5 in
                    (broadcast_update (job_completed j (stats s6)) s6, returned)
                end
              else
                let s6 := with_stats (incr_cpu (stats s5)) s5 in
                (broadcast_update (job_completed j (stats s6)) s6, returned)
          end
      end
  end.

Definition mark_failed (now : Q) (error : string) (j : job) : job :=
  mk_job (job_ident j) (job_type j) (job_priority j) (job_parameters j)
    (job_submitted_at j) failed (job_assigned_node j)
    (job_gpu_preferred j) (job_assigned_at j) (job_completed_at j)
    (job_result j) (job_execution_time j) (Some error) (Some now).

(** [handle_job_failure] *)
Definition handle_job_failure (now : Q) (job_id : string) (error : string)
  (s : coordinator) : coordinator :=
  match active_jobs s !! job_id with
  | None => s
  | Some r =>
      match job_store s !! r with
      | None => s
      | Some j0 =>
          let j := mark_failed now error j0 in
          broadcast_update (job_failed j error) (set_job r j s)
      end
  end.

(** ** The dispatcher *)

(** The three [wait_for(queue.get())] attempts of one [assign_jobs]
    iteration: the first non-empty queue in the order priority, collatz,
    thread gives its head. *)
Definition next_job (s : coordinator) : option (nat * coordinator) :=
  match priority_queue s with
  | r :: q => Some (r, with_priority_queue q s)
  | [] =>
      match collatz_queue s with
      | r :: q => Some (r, with_collatz_queue q s)
      | [] =>
          match thread_queue s with
          | r :: q => Some (r, with_thread_queue q s)
          | [] => None
          end
      end
  end.

Definition mark_assigned (now : Q) (nid : node_id) (j : job) : job :=
  mk_job (job_ident j) (job_type j) (job_priority j) (job_parameters j)
    (job_submitted_at j) assigned nid
    (job_gpu_preferred j) (Some now) (job_completed_at j)
    (job_result j) (job_execution_time j) (job_error j) (job_failed_at j).

(** One iteration of [assign_jobs] up to the worker call of
    [assign_job_to_node] (lines 208-210): the dequeued job is assigned to the
    selected node and sent, or goes back to the tail of its queue when no
    node is available.  The dispatcher does not start an iteration while it
    awaits a worker. *)
Definition assign_jobs (now : Q) (s : coordinator) : coordinator :=
  match in_flight s with
  | Some _ => s
  | None =>
      match next_job s with
      | None => s
      | Some (r, s1) =>
          match job_store s1 !! r with
          | None => s1
          | Some j =>
              match select_best_node j s1 with
              | Some n =>
                  with_in_flight (Some r)
                    (set_job r (mark_assigned now (node_ident n) j) s1)
              | None => enqueue j r s1
              end
          end
      end
  end.

(** How the call to the worker ends: an HTTP answer with its status code and
    what [response.json()] makes of its body (the document, or the text of
    the exception it raises), or an exception of the client (connection
    error, timeout) with its text. *)
Inductive rpc_outcome :=
| rpc_response (code : Z) (body : json + string)
| rpc_exception (msg : string).

(** The rest of [assign_job_to_node] (lines 219-227), run when the worker
    call of the job in flight ends.  [now] is the clock reading of the
    handler that runs first, [later] the reading of [handle_job_failure]
    when [handle_job_completion] raised. *)
Definition assign_job_to_node_reply (now later : Q) (o : rpc_outcome)
  (s : coordinator) : coordinator :=
  match in_flight s with
  | None => s
  | Some r =>
      let s0 := with_in_flight None s in
      match job_store s !! r with
      | None => s0
      | Some j =>
          match o with
          | rpc_response code body =>
              if decide (code = 200%Z) then
                match body with
                | inl result =>
                    match handle_job_completion now (job_ident j) result s0 with
                    | (s1, returned) => s1
                    | (s1, raised e) =>
                        handle_job_failure later (job_ident j) e s1
                    end
                | inr msg => handle_job_failure now (job_ident j) msg s0
                end
              else
                handle_job_failure now (job_ident j)
                  ("Node returned status " +:+ pretty code) s0
          | rpc_exception msg => handle_job_failure now (job_ident j) msg s0
          end
      end
  end.

(** ** The background sweeps *)

Definition demote (n : node) : node :=
  mk_node (node_ident n) (node_address n) (node_capabilities n)
    (node_gpu_enabled n) (node_worker_threads n)
    offline (node_last_heartbeat n) (node_jobs_completed n)
    (node_average_job_time n) (node_load_score n).

(** [current_time - node['last_heartbeat'] > timeout_threshold] and the node
    is online. *)
Definition expired (now : Q) (n : node) : bool :=
  Qltb 60 (now - node_last_heartbeat n) && is_online n.

(** The [for] loop of [monitor_nodes]: the nodes in dictionary order, with
    the [node_offline] messages it broadcasts (they carry the statistics as
    they are during the loop). *)
Fixpoint sweep_nodes (now : Q) (st : cluster_stats) (d : list (node_id * node))
  : list (node_id * node) * list event :=
  match d with
  | [] => ([], [])
  | (k, n) :: d' =>
      let '(d'', evs) := sweep_nodes now st d' in
      if expired now n
      then ((k, demote n) :: d'', node_offline k st :: evs)
      else ((k, n) :: d'', evs)
  end.

(** One pass of [monitor_nodes]. *)
Definition monitor_nodes (now : Q) (s : coordinator) : coordinator :=
  let '(d, evs) := sweep_nodes now (stats s) (nodes s) in
  mk_coordinator d (job_store s) (active_jobs s) (completed_jobs s)
    (thread_queue s) (collatz_queue s) (priority_queue s)
    (set_nodes_online (count_online d) (stats s))
    (in_flight s) (events s ++ evs).

(** [job.get('completed_at', 0) < cutoff_time] for the record behind a
    reference. *)
Definition is_old (cutoff : Q) (h : list job) (r : nat) : bool :=
  match h !! r with
  | Some j => Qltb (default 0 (job_completed_at j)) cutoff
  | None => false
  end.

(** One pass of [cleanup_old_jobs]: the completed jobs older than an hour
    are deleted. *)
Definition cleanup_old_jobs (now : Q) (s : coordinator) : coordinator :=
  let cutoff_time := now - 3600 in
  with_completed_jobs
    (filter (λ kr, is_old cutoff_time (job_store s) kr.2 = false)
       (completed_jobs s)) s.


(** ** Runs *)

(** The transitions of the coordinator, each with the clock readings and the
    request or answer it receives. *)
Inductive op :=
| Register (now : Q) (data : register_data)
| Heartbeat (now : Q) (data : heartbeat_data)
| Submit (now : Q) (data : submit_data)
| Dispatch (now : Q)
| Reply (now later : Q) (o : rpc_outcome)
| Monitor (now : Q)
| Cleanup (now : Q).

Definition step (o : op) (s : coordinator) : coordinator :=
  match o with
  | Register now data => (register_node now data s).1
  | Heartbeat now data => (heartbeat now data s).1
  | Submit now data => (submit_job now data s).1
  | Dispatch now => assign_jobs now s
  | Reply now later out => assign_job_to_node_reply now later out s
  | Monitor now => monitor_nodes now s
  | Cleanup now => cleanup_old_jobs now s
  end.

Definition run (ops : list op) (s : coordinator) : coordinator :=
  fold_left (λ s o, step o s) ops s.

(** ** Concrete requests and states used in the examples below *)

Definition reg_gpu_node : register_data :=
  mk_register_data (Some "N1") (Some "10.0.0.1:8080") None (Some true) (Some 4%Z).

Definition sub_cpu_job : submit_data :=
  mk_submit_data (Some "thread") (Some "normal") None (Some false).

Definition ok_reply : rpc_outcome := rpc_response 200 (inl "{}").

(** A GPU node is registered, a job that does not prefer a GPU is submitted
    and sent to it. *)
Definition sent_cpu_job : coordinator :=
  run [Register 0 reg_gpu_node; Submit 1 sub_cpu_job; Dispatch 1] (init 0).

(** A node registers, misses its heartbeats, is demoted by the monitor and
    then sends a heartbeat again. *)
Definition hb_n1 : heartbeat_data := mk_heartbeat_data (Some "N1") (Some (1 # 2)).

Definition demoted : coordinator :=
  run [Register 0 reg_gpu_node; Monitor 100] (init 0).

Definition repromoted : coordinator :=
  run [Heartbeat 101 hb_n1] demoted.

Definition completed_cpu_job : coordinator :=
  run [Reply 3 3 ok_reply] sent_cpu_job.

(** ** The selection rule in the words of the specification *)

(** The candidate set: the online nodes, narrowed to the GPU nodes among them
    exactly when the job prefers a GPU and there is one. *)
Definition candidates (j : job) (s : coordinator) : list node :=
  if job_gpu_preferred j && existsb node_gpu_enabled (online_nodes (nodes s))
  then List.filter node_gpu_enabled (online_nodes (nodes s))
  else online_nodes (nodes s).

Definition load_le (a b : node) : Prop := node_load_score a <= node_load_score b.

(** ** Worker calls that fail *)



(** Two nodes as in the GPU preference scenario: N1 without GPU at load 0.1,
    N2 with GPU at load 0.5. *)
Definition reg_n1_cpu : register_data :=
  mk_register_data (Some "N1") (Some "10.0.0.1:8080") None (Some false) (Some 4%Z).
Definition reg_n2_gpu : register_data :=
  mk_register_data (Some "N2") (Some "10.0.0.2:8080") None (Some true) (Some 4%Z).

Definition two_nodes : coordinator :=
  run [Register 0 reg_n1_cpu; Register 0 reg_n2_gpu;
       Heartbeat 1 (mk_heartbeat_data (Some "N1") (Some (1 # 10)));
       Heartbeat 1 (mk_heartbeat_data (Some "N2") (Some (1 # 2)))] (init 0).

Definition sub_default : submit_data := mk_submit_data None None None None.

Definition sent_default_job : coordinator :=
  run [Submit 2 sub_default; Dispatch 2] two_nodes.

(** ** Queues *)

(** The contents of the three queues: priority, collatz, thread. *)
Definition queues (s : coordinator) : list nat * list nat * list nat :=
  (priority_queue s, collatz_queue s, thread_queue s).



(** ** Execution times *)

(** The execution times of the jobs that the [job_completed] events report
    as completed by node [nid], oldest first. *)
Definition exec_times (nid : node_id) (evs : list event) : list Q :=
  omap (λ e, match e with
             | job_completed j _ =>
                 if decide (job_assigned_node j = nid)
                 then job_execution_time j else None
             | _ => None
             end) evs.

(** The arithmetic mean [(t1 + ... + tk) / k]. *)
Definition mean (ts : list Q) : Q :=
  Qsum ts / inject_Z (Z.of_nat (length ts)).

(** The operation is a registration of node [nid]. *)
Definition registers (nid : node_id) (o : op) : bool :=
  match o with
  | Register _ data => bool_decide (reg_node_id data = nid)
  | _ => false
  end.

(** N1 registers, completes two jobs that took 2 s and 4 s. *)
Definition two_completions : list op :=
  [Submit 1 sub_cpu_job; Submit 1 sub_cpu_job;
   Dispatch 2; Reply 4 4 ok_reply; Dispatch 5; Reply 9 9 ok_reply].

(** What the counters of a node say about the list of execution times. *)
Definition counters_ok (n : node) (ts : list Q) : Prop :=
  node_jobs_completed n = length ts
  ∧ node_average_job_time n * inject_Z (Z.of_nat (length ts)) == Qsum ts
  ∧ (ts = [] → node_average_job_time n == 0).


(** How one operation changes the counters of a registered node: not at all,
    or by one completion whose time its [job_completed] event carries. *)
Definition counters_step (nid : node_id) (n : node) (s s' : coordinator) : Prop :=
  ∃ n' evs,
    dict_get nid (nodes s') = Some n'
    ∧ events s' = events s ++ evs
    ∧ ((exec_times nid evs = []
        ∧ node_jobs_completed n' = node_jobs_completed n
        ∧ node_average_job_time n' = node_average_job_time n)
       ∨ (∃ t, exec_times nid evs = [t] ∧ n' = record_completion t n)).


(** ** Job ids *)











(** ** The two job maps *)





(** The references the dispatcher still has to deal with: those in the
    queues and the one in flight. *)
Definition in_queues (s : coordinator) : list nat :=
  priority_queue s ++ collatz_queue s ++ thread_queue s.

Definition pending (s : coordinator) : list nat :=
  in_queues s ++ option_list (in_flight s).

(** The invariant of runs with fresh ids: the two maps have no key in
    common; no reference is pending twice; a pending job is the one the
    active map holds under its id; the job in flight has its
    [assigned_at]. *)
Definition job_inv (s : coordinator) : Prop :=
  (∀ k, active_jobs s !! k = None ∨ completed_jobs s !! k = None)
  ∧ NoDup (pending s)
  ∧ (∀ r, r ∈ pending s →
       ∃ j, job_store s !! r = Some j
            ∧ active_jobs s !! job_ident j = Some r)
  ∧ (∀ r, in_flight s = Some r →
       ∃ j, job_store s !! r = Some j ∧ is_Some (job_assigned_at j)).



(** * Further properties of the coordinator: definitions *)

(** The operation is a heartbeat of a registered node that is offline. *)
Definition revives (o : op) (s : coordinator) : bool :=
  match o with
  | Heartbeat _ data =>
      match dict_get (hb_node_id data) (nodes s) with
      | Some n => negb (is_online n)
      | None => false
      end
  | _ => false
  end.

(** No heartbeat of the run finds its node offline. *)
Fixpoint no_revival (ops : list op) (s : coordinator) : bool :=
  match ops with
  | [] => true
  | o :: ops' => negb (revives o s) && no_revival ops' (step o s)
  end.

(** The registry has one record per id and each record carries its key in
    its [id] field. *)
Definition registry_wf (d : list (node_id * node)) : Prop :=
  NoDup (map fst d) ∧ ∀ k n, (k, n) ∈ d → node_ident n = k.

(** Every job that has an [assigned_at] names a registered node. *)
Definition assigned_registered (s : coordinator) : Prop :=
  ∀ r j, job_store s !! r = Some j → is_Some (job_assigned_at j) →
    is_Some (dict_get (job_assigned_node j) (nodes s)).

Definition is_job_completed (e : event) : bool :=
  match e with job_completed _ _ => true | _ => false end.

(** The number of [job_completed] messages broadcast so far. *)
Definition count_job_completed (evs : list event) : nat :=
  length (List.filter is_job_completed evs).

(** The statistics agree with each other and with the messages. *)
Definition stats_consistent (s : coordinator) : Prop :=
  (gpu_calculations (stats s) + cpu_calculations (stats s)
   = total_calculations (stats s))%nat
  ∧ total_calculations (stats s) = count_job_completed (events s).

(** What every run keeps: a well-formed registry, registered nodes behind
    the assigned jobs, consistent statistics. *)
Definition run_inv (s : coordinator) : Prop :=
  registry_wf (nodes s) ∧ assigned_registered s ∧ stats_consistent s.


(** A job was sent to N1 at 1 s and the answer arrives at 3 s. *)
Definition completed_at_3 : coordinator :=
  (handle_job_completion 3 "job_1000_0" "{}" sent_cpu_job).1.

Global Instance queue_class_eq_dec : EqDecision queue_class.
Proof. solve_decision. Defined.




(** * The worker node of [src/cluster/node.py]

    [ClusterNode]: the two compute kernels, the job functions built on
    them, [execute_job] with the bookkeeping around it, the load score and
    the payloads the worker sends to the coordinator.  The [asyncio.sleep]
    calls that simulate processing time are left out, except for the
    division they perform, which can raise.  Job parameters are integers
    when present. *)

Module ClusterNode.

(** An exception leaves the function with the text of [str(e)]. *)
Inductive exn (A : Type) :=
| ok (a : A)
| raise (e : string).
Arguments ok {A} a.
Arguments raise {A} e.

(** The body shared by the four kernel loops:
    [v // 2] for an even value, [v * 3 + 1] for an odd one. *)
Definition collatz_next (v : Z) : Z :=
  if (v mod 2 =? 0)%Z then (v / 2)%Z else (v * 3 + 1)%Z.

(** ** The thread kernel *)

Record thread_result := mk_thread_result {
  thread_id : Z;
  final_value : Z;
  depth : nat;
  thread_processed_by : string
}.

(** The [while depth < max_depth and result_value > 1] loop with its
    [break]; [fuel] is [max_depth - depth]. *)
Fixpoint thread_walk (fuel : nat) (result_value : Z) (depth : nat) : Z * nat :=
  match fuel with
  | O => (result_value, depth)
  | S fuel' =>
      if (1 <? result_value)%Z then
        let v := collatz_next result_value in
        if (1000000 <? v)%Z then (v, S depth)
        else thread_walk fuel' v (S depth)
      else (result_value, depth)
  end.

Definition process_thread (tag : string) (max_depth : Z) (id : Z)
  : thread_result :=
  let '(v, d) := thread_walk (Z.to_nat max_depth) id 0 in
  mk_thread_result id v d tag.

(** [process_thread_batch_gpu] *)
Definition process_thread_batch_gpu (thread_ids : list Z) (max_depth : Z)
  : list thread_result :=
  map (process_thread "gpu" max_depth) thread_ids.

(** [process_thread_batch_cpu]; its sleep divides by [worker_threads]. *)
Definition process_thread_batch_cpu (worker_threads : Z) (thread_ids : list Z)
    (max_depth : Z) : exn (list thread_result) :=
  if (worker_threads =? 0)%Z then raise "float division by zero"
  else ok (map (process_thread "cpu" max_depth) thread_ids).

(** ** The Collatz kernel *)

Record collatz_result := mk_collatz_result {
  number : Z;
  steps : nat;
  max_value : Z;
  collatz_processed_by : string
}.

(** The [while current != 1 and steps < 10000] loop with its [break];
    [fuel] is [10000 - steps]. *)
Fixpoint collatz_walk (fuel : nat) (current : Z) (steps : nat) (max_value : Z)
  : nat * Z :=
  match fuel with
  | O => (steps, max_value)
  | S fuel' =>
      if (current =? 1)%Z then (steps, max_value)
      else
        let c := collatz_next current in
        let m := Z.max max_value c in
        if (100000000 <? c)%Z then (S steps, m)
        else collatz_walk fuel' c (S steps) m
  end.

Definition calculate_collatz (tag : string) (n : Z) : collatz_result :=
  let '(k, m) := collatz_walk 10000 n 0 n in
  mk_collatz_result n k m tag.

(** [calculate_collatz_batch_gpu] *)
Definition calculate_collatz_batch_gpu (numbers : list Z)
  : list collatz_result :=
  map (calculate_collatz "gpu") numbers.

(** [calculate_collatz_batch_cpu]; its sleep divides by [worker_threads]. *)
Definition calculate_collatz_batch_cpu (worker_threads : Z) (numbers : list Z)
  : exn (list collatz_result) :=
  if (worker_threads =? 0)%Z then raise "float division by zero"
  else ok (map (calculate_collatz "cpu") numbers).

(** ** Ranges and slices *)

(** [list(range(start, stop))] *)
Definition range (start stop : Z) : list Z :=
  map (λ i, (start + Z.of_nat i)%Z) (seq 0 (Z.to_nat (stop - start))).

Fixpoint range_up (fuel : nat) (start stop step : Z) : list Z :=
  match fuel with
  | O => []
  | S fuel' =>
      if (start <? stop)%Z
      then start :: range_up fuel' (start + step) stop step
      else []
  end.

Fixpoint range_down (fuel : nat) (start stop step : Z) : list Z :=
  match fuel with
  | O => []
  | S fuel' =>
      if (stop <? start)%Z
      then start :: range_down fuel' (start + step) stop step
      else []
  end.

(** [range(start, stop, step)]: a [ValueError] for step 0. *)
Definition range_step (start stop step : Z) : exn (list Z) :=
  if (step =? 0)%Z then raise "range() arg 3 must not be zero"
  else if (0 <? step)%Z
       then ok (range_up (Z.to_nat (stop - start)) start stop step)
       else ok (range_down (Z.to_nat (start - stop)) start stop step).

(** [l[a:b]] for indices [0 <= a]. *)
Definition slice {A} (l : list A) (a b : Z) : list A :=
  take (Z.to_nat (b - a)) (drop (Z.to_nat a) l).

(** ** Jobs *)

(** The [parameters] document of a job; [None] is an absent key. *)
Record parameters := mk_parameters {
  thread_count : option Z;
  max_depth : option Z;
  batch_size : option Z;
  start_number : option Z;
  number_count : option Z
}.

Record thread_job_result := mk_thread_job_result {
  threads_processed : nat;
  max_depth_reached : nat;
  thread_execution_time : Q;
  thread_acceleration : string;
  results : list thread_result
}.

(** [max(r.get('depth', 0) for r in results) if results else 0] *)
Definition max_depth_of (rs : list thread_result) : nat :=
  fold_right Nat.max 0%nat (map depth rs).

(** [execute_thread_job]; [t_start] and [t_end] are its two clock
    readings. *)
Definition execute_thread_job (gpu_enabled : bool) (worker_threads : Z)
    (t_start t_end : Q) (p : parameters) : exn thread_job_result :=
  let thread_count := default 100%Z (thread_count p) in
  let max_depth := default 5%Z (max_depth p) in
  let batch_size :=
    default (if gpu_enabled then 64%Z else 16%Z) (batch_size p) in
  let results :=
    if gpu_enabled then
      match range_step 0 thread_count batch_size with
      | raise e => raise e
      | ok starts =>
          ok (concat
                (map (λ batch_start,
                        let batch_end :=
                          Z.min (batch_start + batch_size) thread_count in
                        process_thread_batch_gpu
                          (range batch_start batch_end) max_depth)
                   starts))
      end
    else process_thread_batch_cpu worker_threads (range 0 thread_count)
           max_depth in
  match results with
  | raise e => raise e
  | ok rs =>
      ok (mk_thread_job_result (length rs) (max_depth_of rs)
            (t_end - t_start) (if gpu_enabled then "gpu" else "cpu")
            (take 10 rs))
  end.

Record collatz_job_result := mk_collatz_job_result {
  numbers_processed : nat;
  collatz_execution_time : Q;
  most_steps : Z * nat;
  collatz_acceleration : string;
  average_steps : Q;
  results_sample : list collatz_result
}.

(** The record update of both branches: a result with strictly more steps
    replaces the record. *)
Definition update_record (rec : Z * nat) (r : collatz_result) : Z * nat :=
  if (rec.2 <? steps r)%nat then (number r, steps r) else rec.

Definition sum_steps (rs : list collatz_result) : nat :=
  fold_right Nat.add 0%nat (map steps rs).

(** [execute_collatz_job] *)
Definition execute_collatz_job (gpu_enabled : bool) (worker_threads : Z)
    (t_start t_end : Q) (p : parameters) : exn collatz_job_result :=
  let start_number := default 1%Z (start_number p) in
  let number_count := default 1000%Z (number_count p) in
  let batch_size :=
    default (if gpu_enabled then 1024%Z else 64%Z) (batch_size p) in
  let numbers := range start_number (start_number + number_count) in
  let outcome :=
    if gpu_enabled then
      match range_step 0 (Z.of_nat (length numbers)) batch_size with
      | raise e => raise e
      | ok starts =>
          ok (fold_left
                (λ '(results, records) batch_start,
                   let batch_end :=
                     Z.min (batch_start + batch_size)
                       (Z.of_nat (length numbers)) in
                   let batch_results :=
                     calculate_collatz_batch_gpu
                       (slice numbers batch_start batch_end) in
                   (results ++ batch_results,
                    fold_left update_record batch_results records))
                starts ([], (0%Z, 0%nat)))
      end
    else
      match calculate_collatz_batch_cpu worker_threads numbers with
      | raise e => raise e
      | ok results =>
          ok (results, fold_left update_record results (0%Z, 0%nat))
      end in
  match outcome with
  | raise e => raise e
  | ok (rs, records) =>
      ok (mk_collatz_job_result (length rs) (t_end - t_start) records
            (if gpu_enabled then "gpu" else "cpu")
            (match rs with
             | [] => 0
             | _ :: _ =>
                 inject_Z (Z.of_nat (sum_steps rs))
                 / inject_Z (Z.of_nat (length rs))
             end)
            (take 10 rs))
  end.

(** ** The node and [execute_job] *)

Record running_job := mk_running_job {
  started_at : Q;
  running_type : string
}.

Record node_state := mk_node_state {
  node_id : string;
  gpu_enabled : bool;
  worker_threads : Z;
  current_jobs : gmap string running_job;
  completed_jobs : nat;
  total_execution_time : Q;
  is_registered : bool;
  cpu_usage : Q;
  memory_usage : Q;
  gpu_usage : Q
}.

(** The request body of [/api/execute]: the job record, of which the worker
    reads [id], [type] and [parameters]. *)
Record job_data := mk_job_data {
  job_id : string;
  job_kind : string;
  job_params : parameters
}.

Inductive job_result :=
| thread_simulation (r : thread_job_result)
| collatz_calculation (r : collatz_job_result).

(** The answer of [execute_job]: 200 with the result and the execution
    time, or 500 with the error. *)
Inductive execute_response :=
| completed_response (id : string) (result : job_result)
    (execution_time : Q) (node : string)
| failed_response (id : string) (error : string) (node : string).

Definition response_code (r : execute_response) : Z :=
  match r with
  | completed_response _ _ _ _ => 200%Z
  | failed_response _ _ _ => 500%Z
  end.

Definition with_jobs (jobs : gmap string running_job) (completed : nat)
    (total : Q) (st : node_state) : node_state :=
  mk_node_state (node_id st) (gpu_enabled st) (worker_threads st) jobs
    completed total (is_registered st) (cpu_usage st) (memory_usage st)
    (gpu_usage st).

(** The dispatch on the job type in [execute_job]. *)
Definition run_job (st : node_state) (t_start t_end : Q) (d : job_data)
  : exn job_result :=
  if decide (job_kind d = "thread") then
    match execute_thread_job (gpu_enabled st) (worker_threads st)
            t_start t_end (job_params d) with
    | ok r => ok (thread_simulation r)
    | raise e => raise e
    end
  else if decide (job_kind d = "collatz") then
    match execute_collatz_job (gpu_enabled st) (worker_threads st)
            t_start t_end (job_params d) with
    | ok r => ok (collatz_calculation r)
    | raise e => raise e
    end
  else raise ("Unknown job type: " +:+ job_kind d).

(** [execute_job].  The clock is read when the job is entered in
    [current_jobs] ([t0]), twice by the job function ([t1], [t2]) and once
    more for the execution time ([t3]). *)
Definition execute_job (t0 t1 t2 t3 : Q) (d : job_data) (st : node_state)
  : node_state * execute_response :=
  let running :=
    <[job_id d := mk_running_job t0 (job_kind d)]> (current_jobs st) in
  match run_job st t1 t2 d with
  | ok result =>
      let execution_time := t3 - t0 in
      (with_jobs (delete (job_id d) running) (S (completed_jobs st))
         (total_execution_time st + execution_time) st,
       completed_response (job_id d) result execution_time (node_id st))
  | raise e =>
      (with_jobs (delete (job_id d) running) (completed_jobs st)
         (total_execution_time st) st,
       failed_response (job_id d) e (node_id st))
  end.

(** [calculate_load_score] *)
Definition calculate_load_score (st : node_state) : Q :=
  let cpu_score := cpu_usage st / 100 in
  let memory_score := memory_usage st / 100 in
  let job_score :=
    inject_Z (Z.of_nat (size (current_jobs st)))
    / inject_Z (Z.max (worker_threads st) 1) in
  let gpu_bonus := if gpu_enabled st then - (2 # 10) else 0 in
  cpu_score + memory_score + job_score + gpu_bonus.

(** The fields of the heartbeat body that the coordinator reads. *)
Definition heartbeat_payload (st : node_state) : heartbeat_data :=
  mk_heartbeat_data (Some (node_id st)) (Some (calculate_load_score st)).

(** The fields of the registration body that the coordinator reads;
    [capabilities] are the node's, given here as an argument. *)
Definition registration_data (capabilities : list string) (st : node_state)
  : register_data :=
  mk_register_data (Some (node_id st)) (Some (node_id st +:+ ":8080"))
    (Some capabilities) (Some (gpu_enabled st)) (Some (worker_threads st)).

End ClusterNode.

(** * Coordinator and worker together *)

(** The body of [/api/execute] as the worker reads it: [id], [type] and the
    [parameters] document of the job record; [decode] is the reading of
    the document. *)
Definition job_data_of (decode : json → ClusterNode.parameters) (j : job)
  : ClusterNode.job_data :=
  ClusterNode.mk_job_data (job_ident j) (job_type j)
    (decode (job_parameters j)).

(** What [assign_job_to_node] receives for an answer of [execute_job]: its
    status code and its body, a JSON document; [encode] is the writing of
    the document. *)
Definition worker_reply (encode : ClusterNode.execute_response → json)
    (resp : ClusterNode.execute_response) : rpc_outcome :=
  rpc_response (ClusterNode.response_code resp) (inl (encode resp)).

Definition no_parameters : json → ClusterNode.parameters :=
  λ _, ClusterNode.mk_parameters None None None None None.

Definition worker_2 : ClusterNode.node_state :=
  ClusterNode.mk_node_state "N2" true 4 ∅ 0 0 true 0 0 0.

(** * Properties *)

(** ** The node dictionary *)

Lemma dict_get_set_eq k v d : dict_get k (dict_set k v d) = Some v.
Proof.
  induction d as [|[k' v'] d IH]; simpl.
  - by rewrite decide_True.
  - destruct (decide (k' = k)) as [->|Hne]; simpl.
    + by rewrite decide_True.
    + by rewrite decide_False.
Qed.

Lemma dict_get_set_ne k k' v d :
  k ≠ k' → dict_get k' (dict_set k v d) = dict_get k' d.
Proof.
  intros Hne. induction d as [|[k0 v0] d IH]; simpl.
  - by rewrite decide_False.
  - destruct (decide (k0 = k)) as [->|Hne0]; simpl.
    + by rewrite !decide_False.
    + by rewrite IH.
Qed.

Lemma dict_set_keys k v d :
  is_Some (dict_get k d) → map fst (dict_set k v d) = map fst d.
Proof.
  induction d as [|[k0 v0] d IH]; simpl.
  - by intros [? ?].
  - destruct (decide (k0 = k)) as [->|Hne]; simpl; [done|].
    intros H. by rewrite IH.
Qed.

(** ** Heartbeat *)

(** C8.  A heartbeat for an unregistered node id is answered 400
    [unknown_node] and changes nothing in the coordinator.  A heartbeat for
    a registered id is answered [acknowledged]; the node becomes online, its
    [last_heartbeat] is the clock reading and its [load_score] the payload's
    value; its other fields, the other nodes, the dictionary order, the
    jobs, the queues, the statistics and the events are as before. *)
Theorem heartbeat_spec (now : Q) (data : heartbeat_data) (s : coordinator) :
  match dict_get (hb_node_id data) (nodes s) with
  | None => heartbeat now data s = (s, mk_response 400 "unknown_node")
  | Some n =>
      let s' := (heartbeat now data s).1 in
      (heartbeat now data s).2 = mk_response 200 "acknowledged"
      ∧ dict_get (hb_node_id data) (nodes s')
        = Some (mk_node (node_ident n) (node_address n) (node_capabilities n)
                  (node_gpu_enabled n) (node_worker_threads n) online now
                  (node_jobs_completed n) (node_average_job_time n)
                  (default 0 (hb_load_score data)))
      ∧ (∀ k, k ≠ hb_node_id data → dict_get k (nodes s') = dict_get k (nodes s))
      ∧ map fst (nodes s') = map fst (nodes s)
      ∧ job_store s' = job_store s
      ∧ active_jobs s' = active_jobs s
      ∧ completed_jobs s' = completed_jobs s
      ∧ thread_queue s' = thread_queue s
      ∧ collatz_queue s' = collatz_queue s
      ∧ priority_queue s' = priority_queue s
      ∧ stats s' = stats s
      ∧ in_flight s' = in_flight s
      ∧ events s' = events s
  end.
Proof.
  unfold heartbeat.
  destruct (dict_get (hb_node_id data) (nodes s)) as [n|] eqn:Hget; [|done].
  simpl. split_and!; try done.
  - apply dict_get_set_eq.
  - intros k Hk. by apply dict_get_set_ne.
  - apply dict_set_keys. by rewrite Hget.
Qed.

Lemma heartbeat_spec_witness :
  (heartbeat 101 hb_n1 demoted).2 = mk_response 200 "acknowledged"
  ∧ heartbeat 5 hb_n1 (init 0) = (init 0, mk_response 400 "unknown_node").
Proof.
  split.
  - pose proof (heartbeat_spec 101 hb_n1 demoted) as H.
    vm_compute in H. vm_compute. tauto.
  - exact (heartbeat_spec 5 hb_n1 (init 0)).
Defined.

(** ** The online count *)

Lemma register_node_nodes_online now data s :
  nodes_online (stats (register_node now data s).1)
  = count_online (nodes (register_node now data s).1).
Proof. done. Qed.

Lemma monitor_nodes_nodes_online now s :
  nodes_online (stats (monitor_nodes now s))
  = count_online (nodes (monitor_nodes now s)).
Proof.
  unfold monitor_nodes. by destruct (sweep_nodes now (stats s) (nodes s)).
Qed.

(** C2.  The heartbeat that brings an offline node back online does not
    recompute [nodes_online]: here node N1 is online again after its
    heartbeat, and the statistic still says that no node is. *)
Theorem heartbeat_leaves_nodes_online_stale :
  dict_get (Some "N1") (nodes demoted) ≫= (λ n, Some (node_state n)) = Some offline
  ∧ nodes_online (stats demoted) = 0%nat
  ∧ dict_get (Some "N1") (nodes repromoted) ≫= (λ n, Some (node_state n)) = Some online
  ∧ count_online (nodes repromoted) = 1%nat
  ∧ nodes_online (stats repromoted) = 0%nat.
Proof. vm_compute. done. Qed.

(** ** The GPU/CPU split of completions *)

(** C1 as stated fails: the job of [sent_cpu_job] runs on node N1, which is
    [gpu_enabled], and its completion is counted as a CPU calculation,
    because the job does not prefer a GPU. *)
Lemma completion_on_gpu_node_counted_cpu :
  job_store sent_cpu_job !! 0%nat ≫= (λ j, Some (job_assigned_node j, job_gpu_preferred j))
    = Some (Some "N1", false)
  ∧ dict_get (Some "N1") (nodes completed_cpu_job) ≫= (λ n, Some (node_gpu_enabled n))
    = Some true
  ∧ total_calculations (stats completed_cpu_job)
    = S (total_calculations (stats sent_cpu_job))
  ∧ gpu_calculations (stats completed_cpu_job) = gpu_calculations (stats sent_cpu_job)
  ∧ cpu_calculations (stats completed_cpu_job)
    = S (cpu_calculations (stats sent_cpu_job)).
Proof. vm_compute. done. Qed.

Lemma handle_job_completion_stats (now : Q) (job_id : string) (result : json)
    (s : coordinator) (r : nat) (j : job) (t0 : Q) (n : node) :
  active_jobs s !! job_id = Some r →
  job_store s !! r = Some j →
  job_assigned_at j = Some t0 →
  dict_get (job_assigned_node j) (nodes s) = Some n →
  (handle_job_completion now job_id result s).2 = returned
  ∧ total_calculations (stats (handle_job_completion now job_id result s).1)
    = S (total_calculations (stats s))
  ∧ gpu_calculations (stats (handle_job_completion now job_id result s).1)
    = (gpu_calculations (stats s)
       + if job_gpu_preferred j && node_gpu_enabled n then 1 else 0)%nat
  ∧ cpu_calculations (stats (handle_job_completion now job_id result s).1)
    = (cpu_calculations (stats s)
       + if job_gpu_preferred j && node_gpu_enabled n then 0 else 1)%nat.
Proof.
  intros Hact Hst Hat Hn. unfold handle_job_completion.
  rewrite Hact, Hst. simpl. rewrite Hat. simpl. rewrite Hn. simpl.
  destruct (job_gpu_preferred j); simpl.
  - rewrite dict_get_set_eq. simpl.
    destruct (node_gpu_enabled n); simpl; split_and!; try done; lia.
  - split_and!; try done; lia.
Qed.

(** C1, amended.  When [handle_job_completion] completes an active job whose
    node is registered, it adds one to [total_calculations]; it adds one to
    [gpu_calculations] if and only if the job has [gpu_preferred] and the
    node is [gpu_enabled] at that time, and adds one to [cpu_calculations]
    otherwise. *)
Theorem completion_attribution (now : Q) (job_id : string) (result : json)
    (s : coordinator) (r : nat) (j : job) (t0 : Q) (n : node) :
  active_jobs s !! job_id = Some r →
  job_store s !! r = Some j →
  job_assigned_at j = Some t0 →
  dict_get (job_assigned_node j) (nodes s) = Some n →
  let s' := (handle_job_completion now job_id result s).1 in
  let gpu := job_gpu_preferred j && node_gpu_enabled n in
  (handle_job_completion now job_id result s).2 = returned
  ∧ total_calculations (stats s') = S (total_calculations (stats s))
  ∧ gpu_calculations (stats s')
    = (gpu_calculations (stats s) + if gpu then 1 else 0)%nat
  ∧ cpu_calculations (stats s')
    = (cpu_calculations (stats s) + if gpu then 0 else 1)%nat.
Proof.
  intros Hact Hst Hat Hn. simpl.
  by apply (handle_job_completion_stats now job_id result s r j t0 n).
Qed.

Lemma completion_attribution_witness :
  gpu_calculations (stats (handle_job_completion 3 "job_1000_0" "{}" sent_cpu_job).1)
  = 0%nat.
Proof.
  assert (Hj : job_store sent_cpu_job !! 0%nat
               = Some (mk_job "job_1000_0" "thread" "normal" "{}" 1 assigned
                         (Some "N1") false (Some 1) None None None None None))
    by (vm_compute; reflexivity).
  assert (Hn : dict_get (Some "N1") (nodes sent_cpu_job)
               = Some (mk_node (Some "N1") (Some "10.0.0.1:8080") [] true 4
                         online 0 0 0 0))
    by (vm_compute; reflexivity).
  pose proof (completion_attribution 3 "job_1000_0" "{}" sent_cpu_job 0 _ 1 _
                ltac:(vm_compute; reflexivity) Hj eq_refl Hn) as H.
  simpl in H. destruct H as (_ & _ & Hgpu & _). rewrite Hgpu.
  vm_compute. reflexivity.
Defined.

(** ** Node selection *)

Lemma Qltb_true a b : Qltb a b = true ↔ a < b.
Proof.
  unfold Qltb. rewrite negb_true_iff.
  split; intros H.
  - apply Qnot_le_lt. intros Hle. apply Qle_bool_iff in Hle. congruence.
  - destruct (Qle_bool b a) eqn:E; [|done].
    apply Qle_bool_iff in E. exfalso. by apply (Qlt_not_le a b).
Qed.

Lemma Qltb_false a b : Qltb a b = false ↔ b <= a.
Proof.
  unfold Qltb. rewrite negb_false_iff. apply Qle_bool_iff.
Qed.

Section Sorting.

Local Instance load_le_trans : Transitive load_le.
Proof. intros a b c. unfold load_le. apply Qle_trans. Qed.

Lemma insert_by_load_perm n l : insert_by_load n l ≡ₚ n :: l.
Proof.
  induction l as [|m l IH]; simpl; [done|].
  destruct (Qltb _ _); [|done].
  rewrite IH. apply Permutation_swap.
Qed.

Lemma sort_by_load_perm l : sort_by_load l ≡ₚ l.
Proof.
  induction l as [|n l IH]; simpl; [done|].
  by rewrite insert_by_load_perm, IH.
Qed.

Lemma insert_by_load_sorted n l :
  StronglySorted load_le l → StronglySorted load_le (insert_by_load n l).
Proof.
  induction 1 as [|m l Hs IH Hm]; simpl.
  - repeat constructor.
  - destruct (Qltb (node_load_score m) (node_load_score n)) eqn:E.
    + constructor; [done|].
      apply Qltb_true, Qlt_le_weak in E.
      rewrite insert_by_load_perm. by constructor.
    + apply Qltb_false in E. constructor; [by constructor|].
      constructor; [done|].
      eapply Forall_impl; [exact Hm|].
      intros x Hx. by transitivity m.
Qed.

Lemma sort_by_load_sorted l : StronglySorted load_le (sort_by_load l).
Proof.
  induction l; simpl; [constructor|]. by apply insert_by_load_sorted.
Qed.

(** The first element of the sorted list is one of the list and no element
    has a smaller load. *)
Lemma head_sort_by_load l n :
  head (sort_by_load l) = Some n →
  n ∈ l ∧ ∀ m, m ∈ l → load_le n m.
Proof.
  intros Hhead.
  pose proof (sort_by_load_sorted l) as Hs.
  pose proof (sort_by_load_perm l) as Hp.
  destruct (sort_by_load l) as [|h t]; [done|].
  simpl in Hhead. injection Hhead as ->.
  split.
  - rewrite <- Hp. left.
  - intros m Hm. rewrite <- Hp in Hm.
    apply StronglySorted_inv in Hs as [_ Hall].
    apply elem_of_cons in Hm as [->|Hm].
    + unfold load_le. apply Qle_refl.
    + by eapply Forall_forall in Hall.
Qed.

Lemma head_sort_by_load_is_Some l :
  l ≠ [] → is_Some (head (sort_by_load l)).
Proof.
  intros Hne. pose proof (sort_by_load_perm l) as Hp.
  destruct (sort_by_load l) as [|h t]; [|by eexists].
  symmetry in Hp. by apply Permutation_nil_r in Hp.
Qed.

End Sorting.

Lemma select_best_node_candidates j s :
  select_best_node j s = head (sort_by_load (candidates j s)).
Proof.
  unfold select_best_node, candidates.
  destruct (online_nodes (nodes s)) as [|a l] eqn:Hon; simpl.
  - by destruct (job_gpu_preferred j).
  - destruct (job_gpu_preferred j); simpl; [|done].
    destruct (node_gpu_enabled a) eqn:Ha; simpl; [done|].
    destruct (List.filter node_gpu_enabled l) as [|b l'] eqn:Hf; simpl.
    + assert (existsb node_gpu_enabled l = false) as ->; [|done].
      apply not_true_is_false. intros (x & Hx & Hg)%existsb_exists.
      assert (In x (List.filter node_gpu_enabled l)) as Hin
        by (apply filter_In; done).
      by rewrite Hf in Hin.
    + assert (existsb node_gpu_enabled l = true) as ->; [|done].
      apply existsb_exists. exists b.
      apply (filter_In node_gpu_enabled b l). rewrite Hf. by left.
Qed.

Lemma candidates_online j s n :
  n ∈ candidates j s → n ∈ values (nodes s) ∧ node_state n = online.
Proof.
  unfold candidates, online_nodes. intros Hn.
  assert (In n (List.filter is_online (values (nodes s)))) as Hin.
  { destruct (_ && _); apply list_elem_of_In in Hn; [|done].
    by apply filter_In in Hn as [? _]. }
  apply filter_In in Hin as [Hin Hon]. split; [by apply list_elem_of_In|].
  unfold is_online in Hon. by destruct (node_state n).
Qed.

Lemma candidates_nil j s :
  candidates j s = [] ↔ online_nodes (nodes s) = [].
Proof.
  unfold candidates. split.
  - destruct (job_gpu_preferred j); simpl; [|done].
    destruct (existsb _ _) eqn:E; [|done].
    intros Hf. apply existsb_exists in E as (x & Hx & Hg).
    assert (In x (List.filter node_gpu_enabled (online_nodes (nodes s)))) as Hin
      by (by apply filter_In).
    by rewrite Hf in Hin.
  - intros ->. by destruct (job_gpu_preferred j).
Qed.

(** C6.  [select_best_node] returns none exactly when no registered node is
    online.  A node it returns is online, belongs to the candidate set (the
    online nodes, narrowed to the GPU nodes exactly when the job prefers a
    GPU and an online GPU node exists) and no candidate has a smaller
    [load_score]. *)
Theorem select_best_node_spec (j : job) (s : coordinator) :
  (select_best_node j s = None
   ↔ ∀ n, n ∈ values (nodes s) → node_state n = offline)
  ∧ ∀ n, select_best_node j s = Some n →
      n ∈ values (nodes s)
      ∧ node_state n = online
      ∧ n ∈ candidates j s
      ∧ ∀ m, m ∈ candidates j s → node_load_score n <= node_load_score m.
Proof.
  rewrite select_best_node_candidates. split.
  - split.
    + intros Hnone n Hn.
      destruct (decide (candidates j s = [])) as [Hc|Hc].
      * apply candidates_nil in Hc.
        destruct (node_state n) eqn:Hst; [|done].
        assert (In n (online_nodes (nodes s))) as Hin.
        { apply filter_In. split; [by apply list_elem_of_In|].
          unfold is_online. by rewrite Hst. }
        by rewrite Hc in Hin.
      * apply head_sort_by_load_is_Some in Hc as [x Hx]. congruence.
    + intros Hoff.
      destruct (head (sort_by_load (candidates j s))) as [n|] eqn:Hh; [|done].
      apply head_sort_by_load in Hh as [Hin _].
      apply candidates_online in Hin as [Hin Hon].
      apply Hoff in Hin. congruence.
  - intros n Hh. apply head_sort_by_load in Hh as [Hin Hmin].
    pose proof (candidates_online _ _ _ Hin) as [? ?].
    split_and!; try done.
Qed.

Lemma select_best_node_spec_witness :
  ∃ n, select_best_node (new_job 2 sub_default two_nodes) two_nodes = Some n
       ∧ node_ident n = Some "N2"
       ∧ node_state n = online.
Proof.
  destruct (select_best_node_spec (new_job 2 sub_default two_nodes) two_nodes)
    as [_ H].
  eexists. split; [vm_compute; reflexivity|].
  split; [reflexivity|].
  refine (proj1 (proj2 (H _ _))). vm_compute. reflexivity.
Defined.

(** ** Failed worker calls *)



(** ** The default of [gpu_preferred] *)




(** ** What the handlers leave alone *)






(** ** Queue discipline *)





Lemma submit_job_queues now data s :
  let j := new_job now data s in
  let r := length (job_store s) in
  queues (submit_job now data s).1 =
    match class_of j with
    | priority_class => (priority_queue s ++ [r], collatz_queue s, thread_queue s)
    | collatz_class => (priority_queue s, collatz_queue s ++ [r], thread_queue s)
    | thread_class => (priority_queue s, collatz_queue s, thread_queue s ++ [r])
    end
  ∧ in_flight (submit_job now data s).1 = in_flight s
  ∧ job_store (submit_job now data s).1 = job_store s ++ [j]
  ∧ nodes (submit_job now data s).1 = nodes s.
Proof.
  simpl. unfold submit_job, enqueue, queues. simpl.
  by destruct (class_of _).
Qed.




(** ** The running mean *)

Lemma Qsum_snoc ts t : Qsum (ts ++ [t]) == Qsum ts + t.
Proof.
  induction ts as [|a ts IH]; simpl.
  - ring.
  - rewrite IH. ring.
Qed.

Lemma inject_nat_S_nonzero k : ¬ inject_Z (Z.of_nat (S k)) == 0.
Proof.
  unfold Qeq. simpl. lia.
Qed.

(** One step of the incremental mean: if [avg] is the mean of [k] values of
    sum [sm], the update is the mean of the [k + 1] values of sum [sm + t]. *)
Lemma incremental_mean_step avg k sm t :
  avg * inject_Z (Z.of_nat k) == sm →
  incremental_mean avg (S k) t * inject_Z (Z.of_nat (S k)) == sm + t.
Proof.
  intros H. unfold incremental_mean.
  replace (S k - 1)%nat with k by lia.
  rewrite H, Qmult_comm. apply Qmult_div_r, inject_nat_S_nonzero.
Qed.

Lemma counters_ok_mean n ts :
  counters_ok n ts → ts ≠ [] → node_average_job_time n == mean ts.
Proof.
  intros (_ & Hsum & _) Hne. unfold mean. rewrite <- Hsum.
  destruct ts as [|t ts]; [done|].
  rewrite Qdiv_mult_l; [reflexivity|apply inject_nat_S_nonzero].
Qed.

Lemma counters_ok_record_completion n ts t :
  counters_ok n ts → counters_ok (record_completion t n) (ts ++ [t]).
Proof.
  intros (Hk & Hsum & _). unfold counters_ok, record_completion. simpl.
  rewrite length_app, Nat.add_1_r. split_and!.
  - by rewrite Hk.
  - rewrite Hk, Qsum_snoc. by apply incremental_mean_step.
  - by destruct ts.
Qed.

Lemma counters_step_same nid n s s' :
  dict_get nid (nodes s) = Some n →
  nodes s' = nodes s → events s' = events s → counters_step nid n s s'.
Proof.
  intros Hget Hn He. exists n, []. rewrite Hn, He, app_nil_r. naive_solver.
Qed.

Lemma counters_step_trans nid n s s1 s2 :
  counters_step nid n s s1 →
  (∀ n1, dict_get nid (nodes s1) = Some n1 →
     nodes s2 = nodes s1
     ∧ ∃ evs, events s2 = events s1 ++ evs ∧ exec_times nid evs = []) →
  counters_step nid n s s2.
Proof.
  intros (n1 & evs1 & Hget & Hev & Hc) H2.
  destruct (H2 n1 Hget) as (Hn & evs2 & Hev2 & Hx2).
  exists n1, (evs1 ++ evs2). rewrite Hn, Hev2, Hev, app_assoc.
  split_and!; try done.
  unfold exec_times in *. rewrite omap_app, Hx2, app_nil_r. done.
Qed.

Lemma handle_job_failure_nodes_events now job_id err s :
  nodes (handle_job_failure now job_id err s) = nodes s
  ∧ ∃ evs, events (handle_job_failure now job_id err s) = events s ++ evs
           ∧ ∀ nid, exec_times nid evs = [].
Proof.
  unfold handle_job_failure.
  destruct (active_jobs s !! job_id) as [r|];
    [|split; [done|exists []; by rewrite app_nil_r]].
  destruct (job_store s !! r) as [j0|];
    [|split; [done|exists []; by rewrite app_nil_r]].
  simpl. split; [done|]. by eexists [_].
Qed.

Lemma handle_job_completion_counters nid n now job_id result s :
  dict_get nid (nodes s) = Some n →
  counters_step nid n s (handle_job_completion now job_id result s).1.
Proof.
  intros Hget. unfold handle_job_completion.
  destruct (active_jobs s !! job_id) as [r|];
    [|by apply counters_step_same].
  destruct (job_store s !! r) as [j0|]; [|by apply counters_step_same].
  simpl.
  destruct (job_assigned_at j0) as [t0|]; simpl;
    [|by apply counters_step_same].
  destruct (dict_get (job_assigned_node j0) (nodes s)) as [m|] eqn:Hm; simpl.
  - rewrite dict_get_set_eq.
    destruct (decide (job_assigned_node j0 = nid)) as [Heq|Hne].
    + (* the job ran on [nid] *)
      rewrite Heq in Hm. assert (m = n) as -> by congruence.
      exists (record_completion (now - t0) n).
      destruct (job_gpu_preferred j0); simpl;
        [destruct (node_gpu_enabled _)|]; simpl;
        eexists [_]; (split; [rewrite Heq; apply dict_get_set_eq|]);
        (split; [done|]); right; exists (now - t0); simpl;
        by rewrite decide_True.
    + exists n.
      destruct (job_gpu_preferred j0); simpl;
        [destruct (node_gpu_enabled _)|]; simpl;
        eexists [_]; (split; [by rewrite dict_get_set_ne|]);
        (split; [done|]); left; simpl; by rewrite decide_False.
  - assert (job_assigned_node j0 ≠ nid) as Hne by congruence.
    rewrite Hm.
    destruct (job_gpu_preferred j0); simpl.
    + exists n, []. rewrite app_nil_r. naive_solver.
    + exists n. eexists [_]. split; [done|]. split; [done|].
      left. simpl. by rewrite decide_False.
Qed.

Lemma assign_job_to_node_reply_counters nid n now later o s :
  dict_get nid (nodes s) = Some n →
  counters_step nid n s (assign_job_to_node_reply now later o s).
Proof.
  intros Hget. unfold assign_job_to_node_reply.
  destruct (in_flight s) as [r|]; [|by apply counters_step_same].
  destruct (job_store s !! r) as [j|]; [|by apply counters_step_same].
  set (s0 := with_in_flight None s).
  assert (Hfail : ∀ t e,
            counters_step nid n s (handle_job_failure t (job_ident j) e s0)).
  { intros t e.
    apply (counters_step_trans nid n s s0); [by apply counters_step_same|].
    intros _ _.
    destruct (handle_job_failure_nodes_events t (job_ident j) e s0)
      as (Hn & evs & He & Hx).
    naive_solver. }
  destruct o as [code body|msg]; [|apply Hfail].
  destruct (decide (code = 200%Z)); [|apply Hfail].
  destruct body as [result|msg]; [|apply Hfail].
  pose proof (handle_job_completion_counters nid n now (job_ident j) result s0
                Hget) as Hc.
  destruct (handle_job_completion now (job_ident j) result s0) as [s1 [|exn]];
    simpl in *; [done|].
  apply (counters_step_trans nid n s s1); [done|].
  intros _ _.
  destruct (handle_job_failure_nodes_events later (job_ident j) exn s1)
    as (Hn & evs & He & Hx).
  naive_solver.
Qed.

Lemma sweep_nodes_counters nid n now st d :
  dict_get nid d = Some n →
  (∃ n', dict_get nid (sweep_nodes now st d).1 = Some n'
         ∧ node_jobs_completed n' = node_jobs_completed n
         ∧ node_average_job_time n' = node_average_job_time n)
  ∧ exec_times nid (sweep_nodes now st d).2 = [].
Proof.
  induction d as [|[k v] d IH]; simpl; [done|].
  destruct (sweep_nodes now st d) as [d' evs] eqn:Hsw. simpl in IH.
  destruct (decide (k = nid)) as [->|Hne].
  - intros [= ->]. 
    assert (exec_times nid evs = []) as Hx.
    { clear IH. revert d' evs Hsw.
      induction d as [|[k0 v0] d IHd]; simpl; intros d' evs Hsw.
      - by injection Hsw as <- <-.
      - destruct (sweep_nodes now st d) as [d0 evs0].
        destruct (expired now v0); injection Hsw as <- <-; simpl; eauto. }
    destruct (expired now n); simpl; rewrite decide_True by done;
      (split; [by eexists|done]).
  - intros Hget. destruct (IH Hget) as ((n' & Hn' & Hk & Ha) & Hx).
    destruct (expired now v); simpl; rewrite decide_False by done;
      (split; [by exists n'|done]).
Qed.

Lemma assign_jobs_nodes_events now s :
  nodes (assign_jobs now s) = nodes s
  ∧ events (assign_jobs now s) = events s.
Proof.
  unfold assign_jobs.
  destruct (in_flight s); [done|].
  destruct (next_job s) as [[r s1]|] eqn:Hnext; [|done].
  assert (nodes s1 = nodes s ∧ events s1 = events s) as [Hn He].
  { unfold next_job in Hnext.
    destruct (priority_queue s); [|by injection Hnext as <- <-].
    destruct (collatz_queue s); [|by injection Hnext as <- <-].
    destruct (thread_queue s); [done|by injection Hnext as <- <-]. }
  destruct (job_store s1 !! r) as [j|]; [|done].
  destruct (select_best_node j s1); [done|].
  unfold enqueue. by destruct (class_of j).
Qed.

Lemma step_counters nid n o s :
  registers nid o = false →
  dict_get nid (nodes s) = Some n →
  counters_step nid n s (step o s).
Proof.
  intros Hreg Hget.
  destruct o as [now data|now data|now data|now|now later out|now|now]; simpl.
  - (* Register *)
    simpl in Hreg. apply bool_decide_eq_false in Hreg.
    exists n. eexists [_]. simpl. split; [by rewrite dict_get_set_ne|].
    split; [done|]. by left.
  - (* Heartbeat *)
    unfold heartbeat.
    destruct (dict_get (hb_node_id data) (nodes s)) as [m|] eqn:Hm;
      [|by apply counters_step_same].
    simpl. destruct (decide (hb_node_id data = nid)) as [Heq|Hne].
    + rewrite Heq in Hm. assert (m = n) as -> by congruence.
      eexists _, []. simpl. rewrite Heq, app_nil_r.
      split; [apply dict_get_set_eq|]. split; [done|]. by left.
    + exists n, []. simpl. rewrite app_nil_r.
      split; [by rewrite dict_get_set_ne|]. split; [done|]. by left.
  - (* Submit *)
    apply counters_step_same; [done| |].
    + by destruct (submit_job_queues now data s) as (_ & _ & _ & ?).
    + unfold submit_job, enqueue. simpl. by destruct (class_of _).
  - (* Dispatch *)
    destruct (assign_jobs_nodes_events now s).
    by apply counters_step_same.
  - by apply assign_job_to_node_reply_counters.
  - (* Monitor *)
    unfold monitor_nodes.
    destruct (sweep_nodes_counters nid n now (stats s) (nodes s) Hget)
      as ((n' & Hn' & Hk & Ha) & Hx).
    destruct (sweep_nodes now (stats s) (nodes s)) as [d evs]. simpl in *.
    exists n', evs. simpl. naive_solver.
  - by apply counters_step_same.
Qed.

Lemma run_counters nid ops : ∀ s n ts,
  forallb (λ o, negb (registers nid o)) ops = true →
  dict_get nid (nodes s) = Some n →
  counters_ok n ts →
  ∃ n' evs,
    dict_get nid (nodes (run ops s)) = Some n'
    ∧ events (run ops s) = events s ++ evs
    ∧ counters_ok n' (ts ++ exec_times nid evs).
Proof.
  induction ops as [|o ops IH]; intros s n ts Hreg Hget Hok.
  - exists n, []. by rewrite !app_nil_r.
  - simpl in Hreg. apply andb_true_iff in Hreg as [Ho Hreg].
    apply negb_true_iff in Ho.
    destruct (step_counters nid n o s Ho Hget) as (n1 & evs1 & Hget1 & Hev1 & Hc).
    assert (counters_ok n1 (ts ++ exec_times nid evs1)) as Hok1.
    { destruct Hc as [(-> & Hk & Ha)|(t & -> & ->)].
      - rewrite app_nil_r. unfold counters_ok in *. by rewrite Hk, Ha.
      - by apply counters_ok_record_completion. }
    destruct (IH (step o s) n1 _ Hreg Hget1 Hok1) as (n' & evs & Hget' & Hev' & Hok').
    exists n', (evs1 ++ evs). simpl. split; [done|].
    split; [by rewrite Hev', Hev1, app_assoc|].
    unfold exec_times in *. by rewrite omap_app, app_assoc.
Qed.

(** C9.  After a node has registered, and as long as it does not register
    again, its [jobs_completed] is the number [k] of jobs it completed and
    its [average_job_time] is the arithmetic mean [(t1 + ... + tk) / k] of
    their execution times (0 while [k = 0]); the times are those of the
    [job_completed] events of the node since its registration.  Each
    completion's incremental update turns the mean of the first [k] times
    into the mean of [k + 1]. *)
Theorem average_job_time_is_mean (now : Q) (data : register_data)
    (s : coordinator) (ops : list op) :
  forallb (λ o, negb (registers (reg_node_id data) o)) ops = true →
  let s0 := (register_node now data s).1 in
  let s' := run ops s0 in
  (∃ n evs,
     dict_get (reg_node_id data) (nodes s') = Some n
     ∧ events s' = events s0 ++ evs
     ∧ node_jobs_completed n = length (exec_times (reg_node_id data) evs)
     ∧ (exec_times (reg_node_id data) evs = [] → node_average_job_time n == 0)
     ∧ (exec_times (reg_node_id data) evs ≠ [] →
        node_average_job_time n == mean (exec_times (reg_node_id data) evs)))
  ∧ (∀ ts t, ts ≠ [] →
       incremental_mean (mean ts) (S (length ts)) t == mean (ts ++ [t])).
Proof.
  intros Hreg. simpl. split.
  - set (s0 := (register_node now data s).1).
    assert (∃ n0, dict_get (reg_node_id data) (nodes s0) = Some n0
                  ∧ counters_ok n0 []) as (n0 & Hget0 & Hok0).
    { eexists. split; [apply dict_get_set_eq|]. by split_and!. }
    destruct (run_counters _ ops s0 n0 [] Hreg Hget0 Hok0)
      as (n & evs & Hget & Hev & Hok).
    exists n, evs. simpl in Hok.
    split_and!; try done.
    + by destruct Hok.
    + by destruct Hok as (_ & _ & ?).
    + by apply counters_ok_mean.
  - intros ts t Hne.
    assert (mean ts * inject_Z (Z.of_nat (length ts)) == Qsum ts) as Hm.
    { unfold mean. destruct ts as [|a ts]; [done|].
      rewrite Qmult_comm. apply Qmult_div_r, inject_nat_S_nonzero. }
    pose proof (incremental_mean_step _ _ _ t Hm) as Hstep.
    unfold mean at 2. rewrite Qsum_snoc, <- Hstep.
    rewrite length_app, Nat.add_1_r.
    rewrite Qdiv_mult_l; [reflexivity|apply inject_nat_S_nonzero].
Qed.

Lemma average_job_time_is_mean_witness :
  ∃ n, dict_get (Some "N1")
         (nodes (run two_completions (register_node 0 reg_gpu_node (init 0)).1))
       = Some n
       ∧ node_jobs_completed n = 2%nat
       ∧ node_average_job_time n == 3.
Proof.
  destruct (average_job_time_is_mean 0 reg_gpu_node (init 0) two_completions
              eq_refl) as [(n & evs & Hget & Hev & Hk & _ & Hmean) _].
  exists n. split; [exact Hget|].
  assert (Hx : exec_times (Some "N1") evs = [2; 4]).
  { apply (f_equal (drop 1)) in Hev.
    change (drop 1 (events (register_node 0 reg_gpu_node (init 0)).1 ++ evs))
      with evs in Hev.
    rewrite <- Hev. vm_compute. reflexivity. }
  change (reg_node_id reg_gpu_node) with (Some "N1") in Hk, Hmean.
  rewrite Hx in Hk, Hmean. split; [exact Hk|].
  rewrite Hmean; [reflexivity|discriminate].
Defined.

(** ** Job ids *)









(** ** The active map along a run *)







(** ** Ids in submission order *)





(** ** Jobs are in exactly one map *)




Lemma enqueue_in_queues j r s : in_queues (enqueue j r s) ≡ₚ r :: in_queues s.
Proof.
  unfold enqueue, in_queues. destruct (class_of j); simpl.
  - rewrite <- app_assoc. simpl. symmetry. apply Permutation_middle.
  - rewrite <- app_assoc. simpl.
    rewrite !(app_assoc (priority_queue s)).
    symmetry. apply Permutation_middle.
  - rewrite !app_assoc. symmetry. apply Permutation_cons_append.
Qed.

Lemma enqueue_frame j r s :
  active_jobs (enqueue j r s) = active_jobs s
  ∧ completed_jobs (enqueue j r s) = completed_jobs s
  ∧ job_store (enqueue j r s) = job_store s
  ∧ in_flight (enqueue j r s) = in_flight s.
Proof. unfold enqueue. by destruct (class_of j). Qed.



(** Under the invariant the job in flight is the record that the active
    map holds under its id. *)
Lemma in_flight_active s r :
  job_inv s → in_flight s = Some r →
  ∃ j, job_store s !! r = Some j ∧ active_jobs s !! job_ident j = Some r.
Proof.
  intros (_ & _ & H5 & _) Hfl. apply H5. unfold pending. rewrite Hfl.
  apply elem_of_app. right. by left.
Qed.

Lemma submit_job_shape now data s :
  active_jobs (submit_job now data s).1
    = <[new_job_id now s := length (job_store s)]> (active_jobs s)
  ∧ completed_jobs (submit_job now data s).1 = completed_jobs s
  ∧ job_store (submit_job now data s).1 = job_store s ++ [new_job now data s]
  ∧ in_queues (submit_job now data s).1
    ≡ₚ length (job_store s) :: in_queues s
  ∧ in_flight (submit_job now data s).1 = in_flight s.
Proof.
  unfold submit_job. simpl.
  set (s2 := with_active_jobs _ _).
  destruct (enqueue_frame (new_job now data s) (length (job_store s)) s2)
    as (-> & -> & -> & ->).
  split_and!; try done.
  etrans; [apply enqueue_in_queues|done].
Qed.



(** [handle_job_completion] for an active job that has its [assigned_at]
    moves the job from the active to the completed map. *)
Lemma handle_job_completion_moves now k result s r j t0 :
  active_jobs s !! k = Some r →
  job_store s !! r = Some j →
  job_assigned_at j = Some t0 →
  active_jobs (handle_job_completion now k result s).1
    = delete k (active_jobs s)
  ∧ completed_jobs (handle_job_completion now k result s).1
    = <[k := r]> (completed_jobs s)
  ∧ job_store (handle_job_completion now k result s).1
    = <[r := set_execution_time (now - t0) (mark_completed now result j)]>
        (job_store s).
Proof.
  intros Hact Hst Hat. unfold handle_job_completion.
  rewrite Hact, Hst. simpl. rewrite Hat. simpl.
  by repeat (case_match; simpl).
Qed.










(** * Further properties of the coordinator *)

(** ** The online count along a run *)

Lemma count_online_dict_set k n n' d :
  dict_get k d = Some n → is_online n' = is_online n →
  count_online (dict_set k n' d) = count_online d.
Proof.
  unfold count_online, online_nodes, values.
  intros Hget Hon. induction d as [|[k0 v0] d IH]; simpl in *; [done|].
  destruct (decide (k0 = k)) as [->|Hne]; simpl.
  - injection Hget as ->. rewrite Hon. by destruct (is_online n).
  - destruct (is_online v0); simpl; by rewrite IH.
Qed.

Lemma count_online_revive k n n' d :
  dict_get k d = Some n → is_online n = false → is_online n' = true →
  count_online (dict_set k n' d) = S (count_online d).
Proof.
  unfold count_online, online_nodes, values.
  intros Hget Hoff Hon. induction d as [|[k0 v0] d IH]; simpl in *; [done|].
  destruct (decide (k0 = k)) as [->|Hne]; simpl.
  - injection Hget as ->. by rewrite Hon, Hoff.
  - destruct (is_online v0); simpl; by rewrite IH.
Qed.

Lemma handle_job_completion_online now job_id result s :
  count_online (nodes (handle_job_completion now job_id result s).1)
    = count_online (nodes s)
  ∧ nodes_online (stats (handle_job_completion now job_id result s).1)
    = nodes_online (stats s).
Proof.
  unfold handle_job_completion.
  destruct (active_jobs s !! job_id) as [r|]; [|done].
  destruct (job_store s !! r) as [j0|]; [|done]. simpl.
  destruct (job_assigned_at j0) as [t0|]; simpl; [|done].
  destruct (dict_get (job_assigned_node j0) (nodes s)) as [n|] eqn:Hn; simpl.
  - rewrite dict_get_set_eq.
    assert (count_online
              (dict_set (job_assigned_node j0)
                 (record_completion (now - t0) n) (nodes s))
            = count_online (nodes s)) as Hc
      by (by apply (count_online_dict_set _ n)).
    destruct (job_gpu_preferred j0); simpl;
      [destruct (node_gpu_enabled _)|]; simpl; by rewrite Hc.
  - rewrite Hn. by destruct (job_gpu_preferred j0).
Qed.

Lemma handle_job_failure_nodes_stats now job_id err s :
  nodes (handle_job_failure now job_id err s) = nodes s
  ∧ stats (handle_job_failure now job_id err s) = stats s.
Proof.
  unfold handle_job_failure.
  destruct (active_jobs s !! job_id) as [r|]; [|done].
  by destruct (job_store s !! r).
Qed.

Lemma assign_job_to_node_reply_online now later o s :
  count_online (nodes (assign_job_to_node_reply now later o s))
    = count_online (nodes s)
  ∧ nodes_online (stats (assign_job_to_node_reply now later o s))
    = nodes_online (stats s).
Proof.
  unfold assign_job_to_node_reply.
  destruct (in_flight s) as [r|]; [|done].
  destruct (job_store s !! r) as [j|]; [|done].
  set (s0 := with_in_flight None s).
  assert (Hfail : ∀ t e,
    count_online (nodes (handle_job_failure t (job_ident j) e s0))
      = count_online (nodes s)
    ∧ nodes_online (stats (handle_job_failure t (job_ident j) e s0))
      = nodes_online (stats s)).
  { intros t e.
    by destruct (handle_job_failure_nodes_stats t (job_ident j) e s0)
      as [-> ->]. }
  destruct o as [code body|msg]; [|apply Hfail].
  destruct (decide (code = 200%Z)); [|apply Hfail].
  destruct body as [result|msg]; [|apply Hfail].
  pose proof (handle_job_completion_online now (job_ident j) result s0)
    as [Hc Hn].
  destruct (handle_job_completion now (job_ident j) result s0) as [s1 [|exn]];
    simpl in *; [done|].
  by destruct (handle_job_failure_nodes_stats later (job_ident j) exn s1)
    as [-> ->].
Qed.

Lemma assign_jobs_nodes_stats now s :
  nodes (assign_jobs now s) = nodes s ∧ stats (assign_jobs now s) = stats s.
Proof.
  unfold assign_jobs.
  destruct (in_flight s); [done|].
  destruct (next_job s) as [[r s1]|] eqn:Hnext; [|done].
  assert (nodes s1 = nodes s ∧ stats s1 = stats s) as [Hn He].
  { unfold next_job in Hnext.
    destruct (priority_queue s); [|by injection Hnext as <- <-].
    destruct (collatz_queue s); [|by injection Hnext as <- <-].
    destruct (thread_queue s); [done|by injection Hnext as <- <-]. }
  destruct (job_store s1 !! r) as [j|]; [|done].
  destruct (select_best_node j s1); [done|].
  unfold enqueue. by destruct (class_of j).
Qed.

Lemma submit_job_nodes_stats now data s :
  nodes (submit_job now data s).1 = nodes s
  ∧ stats (submit_job now data s).1 = stats s.
Proof. unfold submit_job, enqueue. simpl. by destruct (class_of _). Qed.

Lemma step_nodes_online o s :
  revives o s = false →
  nodes_online (stats s) = count_online (nodes s) →
  nodes_online (stats (step o s)) = count_online (nodes (step o s)).
Proof.
  intros Hrev Hacc.
  destruct o as [now data|now data|now data|now|now later out|now|now];
    cbn [step].
  - apply register_node_nodes_online.
  - unfold heartbeat. simpl in Hrev.
    destruct (dict_get (hb_node_id data) (nodes s)) as [n|] eqn:Hn; [|done].
    simpl. rewrite Hacc. symmetry.
    apply (count_online_dict_set _ n); [done|].
    apply negb_false_iff in Hrev. by rewrite Hrev.
  - by destruct (submit_job_nodes_stats now data s) as [-> ->].
  - by destruct (assign_jobs_nodes_stats now s) as [-> ->].
  - destruct (assign_job_to_node_reply_online now later out s) as [-> ->].
    done.
  - apply monitor_nodes_nodes_online.
  - done.
Qed.

(** X1.  [stats.nodes_online] is the number of online nodes in every state
    of a run in which no heartbeat arrives for a registered node that is
    offline; and from such a state, a heartbeat that does find its node
    offline leaves the statistic one below the number of online nodes. *)
Theorem nodes_online_accurate (t0 : Q) (ops : list op) :
  no_revival ops (init t0) = true →
  nodes_online (stats (run ops (init t0)))
    = count_online (nodes (run ops (init t0)))
  ∧ ∀ now data,
      revives (Heartbeat now data) (run ops (init t0)) = true →
      count_online (nodes (heartbeat now data (run ops (init t0))).1)
      = S (nodes_online (stats (heartbeat now data (run ops (init t0))).1)).
Proof.
  intros Hrun.
  assert (Hacc : ∀ s, nodes_online (stats s) = count_online (nodes s) →
            no_revival ops s = true →
            nodes_online (stats (run ops s)) = count_online (nodes (run ops s))).
  { clear Hrun. induction ops as [|o ops IH]; intros s Hs Hr; [done|].
    simpl in Hr. apply andb_true_iff in Hr as [Ho Hr].
    apply negb_true_iff in Ho. simpl. apply IH; [|done].
    by apply step_nodes_online. }
  specialize (Hacc (init t0) eq_refl Hrun). split; [done|].
  intros now data Hrev. simpl in Hrev. unfold heartbeat.
  destruct (dict_get (hb_node_id data) (nodes (run ops (init t0))))
    as [n|] eqn:Hn; [|done].
  simpl. rewrite Hacc.
  apply (count_online_revive _ n); [done| |done].
  by apply negb_true_iff in Hrev.
Qed.

Lemma nodes_online_accurate_witness :
  nodes_online (stats demoted) = count_online (nodes demoted).
Proof.
  exact (proj1 (nodes_online_accurate 0
                  [Register 0 reg_gpu_node; Monitor 100] eq_refl)).
Defined.

(** ** The registry along a run *)

Lemma elem_of_dict_set k v d k' n' :
  (k', n') ∈ dict_set k v d → (k', n') = (k, v) ∨ (k', n') ∈ d.
Proof.
  induction d as [|[k0 v0] d IH]; simpl.
  - intros ->%list_elem_of_singleton. by left.
  - destruct (decide (k0 = k)) as [->|Hne].
    + intros [->|Hin]%elem_of_cons; [by left|]. right. by right.
    + intros [->|Hin]%elem_of_cons; [right; by left|].
      destruct (IH Hin) as [?|?]; [by left|]. right. by right.
Qed.

Lemma dict_set_keys_new k v d :
  dict_get k d = None → map fst (dict_set k v d) = map fst d ++ [k].
Proof.
  induction d as [|[k0 v0] d IH]; simpl; [done|].
  destruct (decide (k0 = k)) as [->|Hne]; simpl; [done|].
  intros H. by rewrite IH.
Qed.

Lemma dict_get_None_keys k d : dict_get k d = None → k ∉ map fst d.
Proof.
  induction d as [|[k0 v0] d IH]; simpl.
  - intros _ H. by apply elem_of_nil in H.
  - destruct (decide (k0 = k)) as [->|Hne]; [done|].
    intros H [->|Hin]%elem_of_cons; [done|]. by apply IH.
Qed.

Lemma elem_of_dict_get k n d : (k, n) ∈ d → is_Some (dict_get k d).
Proof.
  induction d as [|[k0 v0] d IH]; simpl.
  - intros H. by apply elem_of_nil in H.
  - destruct (decide (k0 = k)) as [->|Hne]; [by eexists|].
    intros [[= -> ->]|Hin]%elem_of_cons; [done|]. by apply IH.
Qed.

Lemma dict_get_elem_of k n d : dict_get k d = Some n → (k, n) ∈ d.
Proof.
  induction d as [|[k0 v0] d IH]; simpl; [done|].
  destruct (decide (k0 = k)) as [->|Hne].
  - intros [= ->]. by left.
  - intros H. right. by apply IH.
Qed.

Lemma registry_wf_dict_set k v d :
  node_ident v = k → registry_wf d → registry_wf (dict_set k v d).
Proof.
  intros Hid [Hnd Hident]. split.
  - destruct (dict_get k d) as [n|] eqn:Hget.
    + rewrite dict_set_keys; [done|by eexists].
    + rewrite dict_set_keys_new by done.
      apply NoDup_app. split_and!; [done| |apply NoDup_singleton].
      intros x Hx ->%list_elem_of_singleton.
      by apply (dict_get_None_keys _ _ Hget).
  - intros k' n' [[= -> ->]|Hin]%elem_of_dict_set; [done|by apply Hident].
Qed.

Lemma dict_get_set_is_Some k v d k' :
  is_Some (dict_get k' d) → is_Some (dict_get k' (dict_set k v d)).
Proof.
  intros H. destruct (decide (k = k')) as [->|Hne].
  - rewrite dict_get_set_eq. by eexists.
  - by rewrite dict_get_set_ne.
Qed.

Lemma sweep_nodes_get now st d k :
  dict_get k (sweep_nodes now st d).1
  = (λ n, if expired now n then demote n else n) <$> dict_get k d.
Proof.
  induction d as [|[k0 v0] d IH]; simpl; [done|].
  destruct (sweep_nodes now st d) as [d' evs]. simpl in IH.
  destruct (expired now v0) eqn:He; simpl;
    (destruct (decide (k0 = k)); simpl; [by rewrite ?He|done]).
Qed.

Lemma sweep_nodes_wf now st d :
  registry_wf d → registry_wf (sweep_nodes now st d).1.
Proof.
  intros [Hnd Hident].
  assert (Hkeys : map fst (sweep_nodes now st d).1 = map fst d).
  { clear. induction d as [|[k0 v0] d IH]; simpl; [done|].
    destruct (sweep_nodes now st d) as [d' evs]. simpl in IH.
    destruct (expired now v0); simpl; by rewrite IH. }
  split; [by rewrite Hkeys|].
  clear Hnd Hkeys. induction d as [|[k0 v0] d IH]; simpl.
  - intros k n H. by apply elem_of_nil in H.
  - assert (Hd : ∀ k n, (k, n) ∈ d → node_ident n = k).
    { intros k n Hin. apply Hident. by right. }
    specialize (IH Hd).
    assert (Hv : node_ident v0 = k0) by (apply Hident; by left).
    destruct (sweep_nodes now st d) as [d' evs]. simpl in IH.
    destruct (expired now v0); simpl;
      intros k n [[= -> ->]|Hin]%elem_of_cons; try done; by apply IH.
Qed.

(** ** The ways [handle_job_completion] can go *)

Lemma handle_job_completion_cases now k result s s' out :
  handle_job_completion now k result s = (s', out) →
  (* nothing to complete *)
  (s' = s ∧ out = returned
   ∧ (active_jobs s !! k = None
      ∨ ∃ r, active_jobs s !! k = Some r ∧ job_store s !! r = None))
  (* the job has no [assigned_at]: [KeyError] at line 236 *)
  ∨ (∃ r j, active_jobs s !! k = Some r ∧ job_store s !! r = Some j
       ∧ job_assigned_at j = None
       ∧ s' = set_job r (mark_completed now result j)
                (with_active_jobs (delete k (active_jobs s)) s)
       ∧ out = raised "'assigned_at'")
  (* the job completes *)
  ∨ (∃ r j t0,
       active_jobs s !! k = Some r ∧ job_store s !! r = Some j
       ∧ job_assigned_at j = Some t0
       ∧ active_jobs s' = delete k (active_jobs s)
       ∧ completed_jobs s' = <[k := r]> (completed_jobs s)
       ∧ job_store s'
         = <[r := set_execution_time (now - t0) (mark_completed now result j)]>
             (job_store s)
       ∧ ((∃ n, dict_get (job_assigned_node j) (nodes s) = Some n
             ∧ out = returned
             ∧ nodes s' = dict_set (job_assigned_node j)
                            (record_completion (now - t0) n) (nodes s)
             ∧ stats s' = (if job_gpu_preferred j && node_gpu_enabled n
                           then incr_gpu else incr_cpu)
                            (incr_total (stats s))
             ∧ events s'
               = events s
                 ++ [job_completed
                       (set_execution_time (now - t0)
                          (mark_completed now result j)) (stats s')])
          ∨ (dict_get (job_assigned_node j) (nodes s) = None
             ∧ nodes s' = nodes s
             ∧ ((job_gpu_preferred j = true
                 ∧ out = raised (repr_node_id (job_assigned_node j))
                 ∧ stats s' = incr_total (stats s)
                 ∧ events s' = events s)
                ∨ (job_gpu_preferred j = false
                   ∧ out = returned
                   ∧ stats s' = incr_cpu (incr_total (stats s))
                   ∧ events s'
                     = events s
                       ++ [job_completed
                             (set_execution_time (now - t0)
                                (mark_completed now result j)) (stats s')]))))).
Proof.
  unfold handle_job_completion. intros Heq.
  destruct (active_jobs s !! k) as [r|] eqn:Hact;
    [|injection Heq as <- <-; left; by eauto].
  destruct (job_store s !! r) as [j|] eqn:Hst.
  2:{ injection Heq as <- <-. left. split_and!; [done..|].
      right. by exists r. }
  right. simpl in Heq.
  destruct (job_assigned_at j) as [t0|] eqn:Hat; simpl in Heq.
  2:{ injection Heq as <- <-. left. by exists r, j. }
  right. exists r, j, t0.
  destruct (dict_get (job_assigned_node j) (nodes s)) as [n|] eqn:Hn;
    simpl in Heq.
  - rewrite dict_get_set_eq in Heq. simpl in Heq.
    destruct (job_gpu_preferred j) eqn:Hp; simpl in Heq;
      [destruct (node_gpu_enabled n) eqn:Hg|]; simpl in Heq;
      injection Heq as <- <-;
      (split_and!; [done..|]; left; exists n; rewrite ?Hg; by split_and!).
  - rewrite Hn in Heq.
    destruct (job_gpu_preferred j) eqn:Hp; simpl in Heq;
      injection Heq as <- <-;
      (split_and!; [done..|]; right; split; [done|]; split; [done|]).
    + left. by split_and!.
    + right. by split_and!.
Qed.

(** ** Registry and statistics along a run *)

Lemma count_job_completed_app l1 l2 :
  count_job_completed (l1 ++ l2)
  = (count_job_completed l1 + count_job_completed l2)%nat.
Proof.
  unfold count_job_completed. by rewrite List.filter_app, length_app.
Qed.

(** Replacing a job by one with the same assignment, over a registry that
    lost no key, keeps [assigned_registered]. *)
Lemma assigned_registered_insert s s' r j0 j' :
  assigned_registered s →
  job_store s !! r = Some j0 →
  job_store s' = <[r := j']> (job_store s) →
  (is_Some (job_assigned_at j') →
   is_Some (dict_get (job_assigned_node j') (nodes s'))) →
  (∀ k, is_Some (dict_get k (nodes s)) → is_Some (dict_get k (nodes s'))) →
  assigned_registered s'.
Proof.
  intros Hreg Hj0 Hst Hj' Hkeys r' j Hlook Hat. rewrite Hst in Hlook.
  apply list_lookup_insert_Some in Hlook as [(-> & -> & _)|[Hne Hlook]].
  - by apply Hj'.
  - apply Hkeys. by eapply Hreg.
Qed.

Lemma assigned_registered_same s s' :
  assigned_registered s →
  job_store s' = job_store s →
  (∀ k, is_Some (dict_get k (nodes s)) → is_Some (dict_get k (nodes s'))) →
  assigned_registered s'.
Proof.
  intros Hreg Hst Hkeys r j Hlook Hat. rewrite Hst in Hlook.
  apply Hkeys. by eapply Hreg.
Qed.

Local Ltac split_run_inv := split; [|split; [|split]].

Lemma handle_job_failure_run_inv now job_id err s :
  run_inv s → run_inv (handle_job_failure now job_id err s).
Proof.
  intros (Hwf & Hreg & Hsum & Hcnt). unfold handle_job_failure.
  destruct (active_jobs s !! job_id) as [r|]; [|done].
  destruct (job_store s !! r) as [j0|] eqn:Hj0; [|done].
  split_run_inv; simpl.
  - done.
  - eapply (assigned_registered_insert s _ r j0); [done..| |done].
    simpl. intros Hat. by eapply Hreg.
  - done.
  - rewrite count_job_completed_app. simpl.
    unfold count_job_completed at 2. simpl. lia.
Qed.

Lemma handle_job_completion_run_inv now job_id result s :
  run_inv s → run_inv (handle_job_completion now job_id result s).1.
Proof.
  intros (Hwf & Hreg & Hsum & Hcnt).
  destruct (handle_job_completion now job_id result s) as [s' out] eqn:Heq.
  destruct (handle_job_completion_cases _ _ _ _ _ _ Heq)
    as [(-> & _)|[(r & j & Hact & Hj & Hat & -> & _)
                 |(r & j & t0 & Hact & Hj & Hat & Ha & Hc & Hst & Hrest)]];
    simpl.
  - done.
  - split_run_inv; try done.
    eapply (assigned_registered_insert s _ r j); [done..| |done].
    simpl. rewrite Hat. by intros [? ?].
  - assert (is_Some (dict_get (job_assigned_node j) (nodes s))) as [n Hn].
    { eapply Hreg; [done|]. by rewrite Hat. }
    destruct Hrest as [(n' & Hn' & _ & Hnodes & Hstats & Hev)
                      |(Hnone & _)]; [|congruence].
    assert (n' = n) as -> by congruence.
    assert (Hkeys : ∀ k, is_Some (dict_get k (nodes s)) →
              is_Some (dict_get k (nodes s'))).
    { intros k Hk. rewrite Hnodes. by apply dict_get_set_is_Some. }
    split_run_inv.
    + rewrite Hnodes. apply registry_wf_dict_set; [|done].
      simpl. destruct Hwf as [_ Hident]. apply Hident.
      by apply dict_get_elem_of.
    + eapply (assigned_registered_insert s s' r j); [done..| |done].
      simpl. intros _. apply Hkeys. by eexists.
    + rewrite Hstats.
      destruct (job_gpu_preferred j && node_gpu_enabled n); simpl; lia.
    + rewrite Hev, count_job_completed_app, Hstats.
      unfold count_job_completed at 2. simpl.
      destruct (job_gpu_preferred j && node_gpu_enabled n); simpl; lia.
Qed.

Lemma assign_job_to_node_reply_run_inv now later o s :
  run_inv s → run_inv (assign_job_to_node_reply now later o s).
Proof.
  intros Hinv. unfold assign_job_to_node_reply.
  destruct (in_flight s) as [r|]; [|done].
  destruct (job_store s !! r) as [j|]; [|done].
  assert (Hinv0 : run_inv (with_in_flight None s)) by done.
  destruct o as [code body|msg];
    [|by apply handle_job_failure_run_inv].
  destruct (decide (code = 200%Z));
    [|by apply handle_job_failure_run_inv].
  destruct body as [result|msg];
    [|by apply handle_job_failure_run_inv].
  pose proof (handle_job_completion_run_inv now (job_ident j) result _ Hinv0)
    as Hc.
  destruct (handle_job_completion now (job_ident j) result _) as [s1 [|exn]];
    simpl in *; [done|].
  by apply handle_job_failure_run_inv.
Qed.

Lemma select_best_node_registered j s n :
  registry_wf (nodes s) → select_best_node j s = Some n →
  is_Some (dict_get (node_ident n) (nodes s)).
Proof.
  intros [_ Hident] Hsel. rewrite select_best_node_candidates in Hsel.
  apply head_sort_by_load in Hsel as [Hin _].
  apply candidates_online in Hin as [Hin _].
  unfold values in Hin. apply list_elem_of_In, in_map_iff in Hin
    as ([k n'] & Heq & Hin). simpl in Heq. subst n'.
  apply list_elem_of_In in Hin.
  rewrite (Hident _ _ Hin). by eapply elem_of_dict_get.
Qed.

Lemma assign_jobs_run_inv now s : run_inv s → run_inv (assign_jobs now s).
Proof.
  intros (Hwf & Hreg & Hsum & Hcnt). unfold assign_jobs.
  destruct (in_flight s); [done|].
  destruct (next_job s) as [[r s1]|] eqn:Hnext; [|done].
  assert (nodes s1 = nodes s ∧ stats s1 = stats s ∧ events s1 = events s
          ∧ job_store s1 = job_store s) as (Hn & Hs & He & Hst).
  { unfold next_job in Hnext.
    destruct (priority_queue s); [|by injection Hnext as <- <-].
    destruct (collatz_queue s); [|by injection Hnext as <- <-].
    destruct (thread_queue s); [done|by injection Hnext as <- <-]. }
  assert (Hinv1 : run_inv s1).
  { unfold run_inv, assigned_registered, stats_consistent.
    by rewrite Hn, Hs, He, Hst. }
  destruct (job_store s1 !! r) as [j|] eqn:Hj; [|done].
  destruct (select_best_node j s1) as [n|] eqn:Hsel.
  - destruct Hinv1 as (Hwf1 & Hreg1 & Hsum1 & Hcnt1).
    split_run_inv; try done.
    eapply (assigned_registered_insert s1 _ r j); [done..| |done].
    simpl. intros _. by apply (select_best_node_registered j).
  - unfold enqueue. by destruct (class_of j).
Qed.

Lemma step_run_inv o s : run_inv s → run_inv (step o s).
Proof.
  intros Hinv.
  destruct o as [now data|now data|now data|now|now later out|now|now];
    cbn [step].
  - (* Register *)
    destruct Hinv as (Hwf & Hreg & Hsum & Hcnt).
    unfold register_node. split_run_inv; simpl.
    + by apply registry_wf_dict_set.
    + intros r j Hj Hat. simpl in *. apply dict_get_set_is_Some.
      by eapply Hreg.
    + done.
    + rewrite count_job_completed_app. simpl.
      unfold count_job_completed at 2. simpl. lia.
  - (* Heartbeat *)
    destruct Hinv as (Hwf & Hreg & Hstats).
    unfold heartbeat.
    destruct (dict_get (hb_node_id data) (nodes s)) as [n|] eqn:Hn;
      [|done].
    split; [|split]; simpl; [| |done].
    + apply registry_wf_dict_set; [|done]. simpl.
      destruct Hwf as [_ Hident]. apply Hident. by apply dict_get_elem_of.
    + intros r j Hj Hat. simpl in *. apply dict_get_set_is_Some.
      by eapply Hreg.
  - (* Submit *)
    destruct Hinv as (Hwf & Hreg & Hstats).
    destruct (submit_job_shape now data s) as (_ & _ & Hst & _).
    destruct (submit_job_nodes_stats now data s) as [Hn Hs].
    assert (He : events (submit_job now data s).1 = events s).
    { unfold submit_job, enqueue. simpl. by destruct (class_of _). }
    unfold run_inv, stats_consistent. rewrite Hn, Hs, He.
    split; [done|]. split; [|done].
    intros r j Hj Hat. rewrite Hn. rewrite Hst in Hj.
    apply lookup_app_Some in Hj as [Hj|[_ Hj]]; [by eapply Hreg|].
    apply list_lookup_singleton_Some in Hj as [_ <-].
    simpl in Hat. by destruct Hat.
  - by apply assign_jobs_run_inv.
  - by apply assign_job_to_node_reply_run_inv.
  - (* Monitor *)
    destruct Hinv as (Hwf & Hreg & Hsum & Hcnt).
    unfold monitor_nodes.
    pose proof (sweep_nodes_wf now (stats s) (nodes s) Hwf) as Hwf'.
    pose proof (sweep_nodes_get now (stats s) (nodes s)) as Hget.
    assert (Hevs : count_job_completed (sweep_nodes now (stats s) (nodes s)).2
                   = 0%nat).
    { clear. induction (nodes s) as [|[k0 v0] d IH]; simpl; [done|].
      destruct (sweep_nodes now (stats s) d) as [d' evs]. simpl in IH.
      by destruct (expired now v0). }
    destruct (sweep_nodes now (stats s) (nodes s)) as [d evs]. simpl in *.
    split_run_inv; simpl; [done| |done|].
    + intros r j Hj Hat. simpl in *. rewrite Hget.
      apply fmap_is_Some. by eapply Hreg.
    + rewrite count_job_completed_app, Hevs. lia.
  - done.
Qed.

Lemma run_inv_init t0 : run_inv (init t0).
Proof.
  split_run_inv; simpl.
  - split; [constructor|]. intros k n H. by apply elem_of_nil in H.
  - intros r j H. simpl in H. by rewrite lookup_nil in H.
  - done.
  - done.
Qed.

Lemma run_run_inv ops : ∀ s, run_inv s → run_inv (run ops s).
Proof.
  induction ops as [|o ops IH]; intros s Hinv; [done|].
  simpl. by apply IH, step_run_inv.
Qed.

(** X2.  In every state the coordinator reaches, whatever the requests,
    clock readings and worker answers: the GPU and the CPU counter add up
    to [total_calculations], and [total_calculations] is the number of
    [job_completed] messages broadcast so far. *)
Theorem stats_add_up (t0 : Q) (ops : list op) :
  (gpu_calculations (stats (run ops (init t0)))
   + cpu_calculations (stats (run ops (init t0)))
   = total_calculations (stats (run ops (init t0))))%nat
  ∧ total_calculations (stats (run ops (init t0)))
    = count_job_completed (events (run ops (init t0))).
Proof.
  by destruct (run_run_inv ops (init t0) (run_inv_init t0)) as (_ & _ & ?).
Qed.

(** X3.  In every state the coordinator reaches, the registry holds one
    record per node id, the [id] field of a record is the key it is stored
    under, and the [assigned_node] of every job that was ever assigned is a
    registered id: a registered node is never removed. *)
Theorem registry_well_formed (t0 : Q) (ops : list op) :
  NoDup (map fst (nodes (run ops (init t0))))
  ∧ (∀ k n, dict_get k (nodes (run ops (init t0))) = Some n →
       node_ident n = k)
  ∧ (∀ r j, job_store (run ops (init t0)) !! r = Some j →
       is_Some (job_assigned_at j) →
       is_Some (dict_get (job_assigned_node j) (nodes (run ops (init t0))))).
Proof.
  destruct (run_run_inv ops (init t0) (run_inv_init t0))
    as ((Hnd & Hident) & Hreg & _).
  split_and!; [done| |done].
  intros k n Hget. by apply Hident, dict_get_elem_of.
Qed.

(** ** The liveness sweep *)




Lemma sweep_nodes_again now st st' d :
  sweep_nodes now st' (sweep_nodes now st d).1 = ((sweep_nodes now st d).1, []).
Proof.
  induction d as [|[k0 v0] d IH]; simpl; [done|].
  destruct (sweep_nodes now st d) as [d' evs]. simpl in IH.
  destruct (expired now v0) eqn:He; simpl; rewrite IH.
  - assert (expired now (demote v0) = false) as ->; [|done].
    unfold expired, is_online. simpl. apply andb_false_r.
  - by rewrite He.
Qed.


(** X5.  A second pass of [monitor_nodes] at the same clock reading changes
    nothing and broadcasts nothing. *)
Theorem monitor_nodes_idempotent (now : Q) (s : coordinator) :
  monitor_nodes now (monitor_nodes now s) = monitor_nodes now s.
Proof.
  unfold monitor_nodes at 1.
  assert (Hn : nodes (monitor_nodes now s)
               = (sweep_nodes now (stats s) (nodes s)).1).
  { unfold monitor_nodes. by destruct (sweep_nodes _ _ _). }
  rewrite Hn, sweep_nodes_again. rewrite <- Hn.
  unfold monitor_nodes in *.
  destruct (sweep_nodes now (stats s) (nodes s)) as [d evs]. simpl in *.
  by rewrite app_nil_r.
Qed.

(** ** Retention of completed jobs *)

(** X6.  A job that [handle_job_completion] completes at clock reading [t]
    is in the completed map; a pass of [cleanup_old_jobs] at [now] keeps it
    when [t >= now - 3600] (the boundary included) and deletes it when
    [t < now - 3600].  The pass leaves the active map, the job records,
    the queues, the nodes, the statistics and the events as they are, it
    adds no key to the completed map, and a second pass at the same clock
    reading deletes nothing more. *)
Theorem completed_job_retention (t now : Q) (k : string) (result : json)
    (s : coordinator) (r : nat) (j : job) (t0 : Q) :
  active_jobs s !! k = Some r →
  job_store s !! r = Some j →
  job_assigned_at j = Some t0 →
  let s1 := (handle_job_completion t k result s).1 in
  completed_jobs s1 !! k = Some r
  ∧ (now - 3600 <= t → completed_jobs (cleanup_old_jobs now s1) !! k = Some r)
  ∧ (t < now - 3600 → completed_jobs (cleanup_old_jobs now s1) !! k = None)
  ∧ (∀ s2 : coordinator,
       active_jobs (cleanup_old_jobs now s2) = active_jobs s2
       ∧ job_store (cleanup_old_jobs now s2) = job_store s2
       ∧ queues (cleanup_old_jobs now s2) = queues s2
       ∧ in_flight (cleanup_old_jobs now s2) = in_flight s2
       ∧ nodes (cleanup_old_jobs now s2) = nodes s2
       ∧ stats (cleanup_old_jobs now s2) = stats s2
       ∧ events (cleanup_old_jobs now s2) = events s2
       ∧ completed_jobs (cleanup_old_jobs now s2) ⊆ completed_jobs s2
       ∧ cleanup_old_jobs now (cleanup_old_jobs now s2)
         = cleanup_old_jobs now s2).
Proof.
  intros Hact Hj Hat. simpl.
  destruct (handle_job_completion_moves t k result s r j t0 Hact Hj Hat)
    as (_ & Hc & Hst).
  assert (Hold : is_old (now - 3600)
                   (job_store (handle_job_completion t k result s).1) r
                 = Qltb t (now - 3600)).
  { unfold is_old. rewrite Hst, list_lookup_insert_eq; [done|].
    by eapply lookup_lt_Some. }
  split_and!.
  - rewrite Hc. apply lookup_insert_eq.
  - intros Hle. unfold cleanup_old_jobs. simpl.
    apply map_lookup_filter_Some. split; [rewrite Hc; apply lookup_insert_eq|].
    simpl. rewrite Hold. by apply Qltb_false.
  - intros Hlt. unfold cleanup_old_jobs. simpl.
    apply map_lookup_filter_None. right. intros r' Hr'. simpl.
    rewrite Hc, lookup_insert_eq in Hr'. injection Hr' as <-.
    rewrite Hold. apply Qltb_true in Hlt. by rewrite Hlt.
  - intros s2. unfold cleanup_old_jobs, queues. simpl.
    split_and!; try done.
    + apply map_filter_subseteq.
    + unfold with_completed_jobs. simpl. f_equal. apply map_eq. intros i.
      rewrite !map_lookup_filter.
      destruct (completed_jobs s2 !! i) as [x|]; simpl; [|done].
      case_guard; simpl; [|done]. by rewrite option_guard_True.
Qed.

Lemma completed_job_retention_witness :
  completed_jobs (cleanup_old_jobs 3603 completed_at_3) !! "job_1000_0"
    = Some 0%nat
  ∧ completed_jobs (cleanup_old_jobs 3604 completed_at_3) !! "job_1000_0"
    = None.
Proof.
  assert (Hj : job_store sent_cpu_job !! 0%nat
               = Some (mk_job "job_1000_0" "thread" "normal" "{}" 1 assigned
                         (Some "N1") false (Some 1) None None None None None))
    by (vm_compute; reflexivity).
  split.
  - refine (proj1 (proj2 (completed_job_retention 3 3603 "job_1000_0" "{}"
              sent_cpu_job 0 _ 1 ltac:(vm_compute; reflexivity) Hj eq_refl)) _).
    vm_compute. discriminate.
  - refine (proj1 (proj2 (proj2 (completed_job_retention 3 3604 "job_1000_0"
              "{}" sent_cpu_job 0 _ 1 ltac:(vm_compute; reflexivity) Hj
              eq_refl))) _).
    vm_compute. reflexivity.
Defined.

(** ** The wait-time estimate *)

Lemma Qmax_py_lower a b : b <= Qmax_py a b.
Proof.
  unfold Qmax_py. destruct (Qltb a b) eqn:E; [apply Qle_refl|].
  by apply Qltb_false.
Qed.

(** X7.  [estimate_wait_time] answers 300 when no node is online and never
    less than 10 otherwise; it answers at least 30 when the job does not
    prefer a GPU, and also when it does but no online node has one. *)
Theorem estimate_wait_time_bounds (j : job) (s : coordinator) :
  10 <= estimate_wait_time j s
  ∧ (online_nodes (nodes s) = [] → estimate_wait_time j s = 300)
  ∧ (job_gpu_preferred j = false
     ∨ List.filter node_gpu_enabled (online_nodes (nodes s)) = [] →
     30 <= estimate_wait_time j s).
Proof.
  unfold estimate_wait_time.
  destruct (online_nodes (nodes s)) as [|a l] eqn:Hon.
  - split_and!; [done|done|]. intros _. done.
  - split_and!.
    + destruct (job_gpu_preferred j);
        [destruct (List.filter node_gpu_enabled (a :: l))|].
      * eapply Qle_trans; [|apply Qmax_py_lower]. done.
      * apply Qmax_py_lower.
      * eapply Qle_trans; [|apply Qmax_py_lower]. done.
    + done.
    + intros [->| ->]; [apply Qmax_py_lower|].
      destruct (job_gpu_preferred j); apply Qmax_py_lower.
Qed.

Lemma estimate_wait_time_bounds_witness :
  30 <= estimate_wait_time
          (new_job 2 (mk_submit_data None None None (Some false)) two_nodes)
          two_nodes.
Proof.
  refine (proj2 (proj2 (estimate_wait_time_bounds _ two_nodes)) _).
  left. reflexivity.
Defined.

(** ** Ties in node selection *)





(** ** Back-off when no node is available *)













(** * Properties of the worker node *)

Module ClusterNodeProofs.
Import ClusterNode.

(** ** The Collatz kernel *)

Lemma collatz_walk_bounds fuel : ∀ c k m,
  (k ≤ (collatz_walk fuel c k m).1 ≤ k + fuel)%nat
  ∧ (m ≤ (collatz_walk fuel c k m).2)%Z.
Proof.
  induction fuel as [|fuel IH]; intros c k m; simpl; [lia|].
  destruct (c =? 1)%Z; simpl; [lia|].
  destruct (100000000 <? collatz_next c)%Z; simpl; [lia|].
  specialize (IH (collatz_next c) (S k) (Z.max m (collatz_next c))). lia.
Qed.

(** X10.  The Collatz kernels return one result per input number, in input
    order; each result reports at most 10000 steps and a [max_value] that
    is at least the number.  The CPU kernel computes the same numbers,
    steps and maxima as the GPU kernel, unless the node has
    [worker_threads = 0], in which case it raises (its simulated
    processing time divides by the thread count). *)
Theorem collatz_kernels (numbers : list Z) :
  map number (calculate_collatz_batch_gpu numbers) = numbers
  ∧ Forall (λ r, (steps r ≤ 10000)%nat ∧ (number r ≤ max_value r)%Z
                 ∧ collatz_processed_by r = "gpu")
      (calculate_collatz_batch_gpu numbers)
  ∧ calculate_collatz_batch_cpu 0 numbers = raise "float division by zero"
  ∧ ∀ w, w ≠ 0%Z →
      ∃ rs, calculate_collatz_batch_cpu w numbers = ok rs
        ∧ map (λ r, (number r, steps r, max_value r)) rs
          = map (λ r, (number r, steps r, max_value r))
              (calculate_collatz_batch_gpu numbers)
        ∧ Forall (λ r, collatz_processed_by r = "cpu") rs.
Proof.
  unfold calculate_collatz_batch_gpu, calculate_collatz_batch_cpu.
  split_and!.
  - rewrite map_map. rewrite <- (map_id numbers) at 2.
    apply map_ext. intros n. unfold calculate_collatz.
    by destruct (collatz_walk 10000 n 0 n).
  - apply Forall_map, Forall_forall. intros n _. unfold calculate_collatz.
    pose proof (collatz_walk_bounds 10000 n 0 n) as [Hk Hm].
    destruct (collatz_walk 10000 n 0 n) as [k m]. simpl in *.
    split_and!; [lia|done|done].
  - done.
  - intros w Hw. apply Z.eqb_neq in Hw. rewrite Hw. eexists. split; [done|].
    split.
    + rewrite !map_map. apply map_ext. intros n. unfold calculate_collatz.
      by destruct (collatz_walk 10000 n 0 n).
    + apply Forall_map, Forall_forall. intros n _. unfold calculate_collatz.
      by destruct (collatz_walk 10000 n 0 n).
Qed.

Lemma collatz_walk_trace fuel : ∀ c k m,
  ∃ d, (collatz_walk fuel c k m).1 = (k + d)%nat
    ∧ (d ≤ fuel)%nat
    ∧ (∀ i, (i < d)%nat → Nat.iter i collatz_next c ≠ 1%Z)
    ∧ (∀ i, (1 ≤ i ≤ d)%nat →
         (Nat.iter i collatz_next c ≤ (collatz_walk fuel c k m).2)%Z)
    ∧ (Nat.iter d collatz_next c = 1%Z
       ∨ (100000000 < Nat.iter d collatz_next c)%Z ∧ (1 ≤ d)%nat
       ∨ d = fuel).
Proof.
  induction fuel as [|fuel IH]; intros c k m; simpl.
  - exists 0%nat. split_and!; [lia|lia|lia|lia|by right; right].
  - destruct (c =? 1)%Z eqn:Hc; simpl.
    + apply Z.eqb_eq in Hc. exists 0%nat.
      split_and!; [lia|lia|lia|lia|by left].
    + apply Z.eqb_neq in Hc.
      destruct (100000000 <? collatz_next c)%Z eqn:Hbig; simpl.
      * apply Z.ltb_lt in Hbig. exists 1%nat.
        split_and!; [lia|lia| | |right; left; simpl; lia].
        -- intros i Hi. assert (i = 0%nat) as -> by lia. done.
        -- intros i Hi. assert (i = 1%nat) as -> by lia. simpl. lia.
      * destruct (IH (collatz_next c) (S k) (Z.max m (collatz_next c)))
          as (d & Hk & Hd & Hne & Hmax & Hend).
        pose proof (collatz_walk_bounds fuel (collatz_next c) (S k)
                      (Z.max m (collatz_next c))) as [_ Hm].
        exists (S d). split_and!.
        -- lia.
        -- lia.
        -- intros [|i] Hi; [done|]. rewrite Nat.iter_succ_r.
           apply Hne. lia.
        -- intros [|i] Hi; [lia|]. rewrite Nat.iter_succ_r.
           destruct i as [|i]; [simpl; lia|]. apply Hmax. lia.
        -- rewrite Nat.iter_succ_r.
           destruct Hend as [?|[[? ?]|?]];
             [by left|right; left; split; [done|lia]|right; right; lia].
Qed.

(** X11.  When the Collatz kernel reports fewer than 10000 steps and a
    [max_value] of at most 100000000, the number of steps is the total
    stopping time of the number: that many applications of the Collatz map
    lead to 1 and no fewer do; every value on the way is at most
    [max_value]. *)
Theorem collatz_steps_stopping_time (tag : string) (n : Z) :
  (steps (calculate_collatz tag n) < 10000)%nat →
  (max_value (calculate_collatz tag n) ≤ 100000000)%Z →
  Nat.iter (steps (calculate_collatz tag n)) collatz_next n = 1%Z
  ∧ (∀ i, (i < steps (calculate_collatz tag n))%nat →
       Nat.iter i collatz_next n ≠ 1%Z)
  ∧ (∀ i, (i ≤ steps (calculate_collatz tag n))%nat →
       (Nat.iter i collatz_next n ≤ max_value (calculate_collatz tag n))%Z).
Proof.
  unfold calculate_collatz.
  destruct (collatz_walk_trace 10000 n 0 n) as (d & Hk & Hd & Hne & Hmax & Hend).
  pose proof (collatz_walk_bounds 10000 n 0 n) as [_ Hm].
  destruct (collatz_walk 10000 n 0 n) as [k m]. simpl in *. subst k.
  intros Hlt Hsmall. split_and!.
  - destruct Hend as [?|[[Hbig Hd1]|?]]; [done| |lia].
    specialize (Hmax d). lia.
  - done.
  - intros [|i] Hi; [simpl; lia|]. apply Hmax. lia.
Qed.

Lemma collatz_steps_stopping_time_witness :
  Nat.iter 111 collatz_next 27%Z = 1%Z.
Proof.
  assert (Hs : steps (calculate_collatz "cpu" 27%Z) = 111%nat)
    by (vm_compute; reflexivity).
  destruct (collatz_steps_stopping_time "cpu" 27%Z) as [H _].
  - apply Nat.ltb_lt. vm_compute. reflexivity.
  - vm_compute. discriminate.
  - rewrite Hs in H. exact H.
Defined.

Lemma collatz_next_nonpositive v : (v ≤ 0)%Z → (collatz_next v ≤ 0)%Z.
Proof.
  intros Hv. unfold collatz_next.
  destruct (v mod 2 =? 0)%Z eqn:E.
  - apply Z.div_le_upper_bound; lia.
  - apply Z.eqb_neq in E. assert (v ≠ 0%Z) by (intros ->; done). lia.
Qed.

Lemma collatz_walk_nonpositive fuel : ∀ c k m,
  (c ≤ 0)%Z → (collatz_walk fuel c k m).1 = (k + fuel)%nat.
Proof.
  induction fuel as [|fuel IH]; intros c k m Hc; simpl; [lia|].
  pose proof (collatz_next_nonpositive c Hc) as Hn.
  assert ((c =? 1)%Z = false) as -> by (apply Z.eqb_neq; lia).
  assert ((100000000 <? collatz_next c)%Z = false) as ->
    by (apply Z.ltb_ge; lia).
  rewrite IH by done. lia.
Qed.

(** X12.  For a number that is zero or negative the kernel never reaches 1
    and never leaves the loop early: it always runs, and reports, the full
    10000 steps. *)
Theorem collatz_nonpositive_full_budget (tag : string) (n : Z) :
  (n ≤ 0)%Z → steps (calculate_collatz tag n) = 10000%nat.
Proof.
  intros Hn. unfold calculate_collatz.
  pose proof (collatz_walk_nonpositive 10000 n 0 n Hn) as H.
  destruct (collatz_walk 10000 n 0 n) as [k m]. simpl in *. lia.
Qed.

Lemma collatz_nonpositive_full_budget_witness :
  steps (calculate_collatz "gpu" (-7)%Z) = 10000%nat.
Proof. apply collatz_nonpositive_full_budget. lia. Defined.


(** ** The thread kernel *)

Lemma collatz_next_from_above_1 v :
  (1 < v)%Z → (1 ≤ collatz_next v ≤ 3 * v + 1)%Z.
Proof.
  intros Hv. unfold collatz_next. destruct (v mod 2 =? 0)%Z; [|lia].
  split.
  - apply Z.div_le_lower_bound; lia.
  - assert (v / 2 ≤ v)%Z by (apply Z.div_le_upper_bound; lia). lia.
Qed.

Lemma thread_walk_trace fuel : ∀ v d,
  ∃ k, (thread_walk fuel v d).2 = (d + k)%nat
    ∧ (k ≤ fuel)%nat
    ∧ (thread_walk fuel v d).1 = Nat.iter k collatz_next v
    ∧ ((v ≤ 1)%Z → k = 0%nat)
    ∧ ((1 ≤ v ≤ 1000000)%Z → (1 ≤ (thread_walk fuel v d).1 ≤ 3000001)%Z).
Proof.
  induction fuel as [|fuel IH]; intros v d; simpl.
  - exists 0%nat. split_and!; [lia|lia|done|done|simpl; lia].
  - destruct (1 <? v)%Z eqn:Hv; simpl.
    2:{ apply Z.ltb_ge in Hv. exists 0%nat.
        split_and!; [lia|lia|done|done|simpl; lia]. }
    apply Z.ltb_lt in Hv.
    pose proof (collatz_next_from_above_1 v Hv) as Hnext.
    destruct (1000000 <? collatz_next v)%Z eqn:Hbig; simpl.
    + exists 1%nat. split_and!; [lia|lia|done|lia|lia].
    + apply Z.ltb_ge in Hbig.
      destruct (IH (collatz_next v) (S d)) as (k & Hd & Hk & Hval & _ & Hb).
      exists (S k). split_and!; [lia|lia| |lia|].
      * by rewrite Nat.iter_succ_r.
      * intros _. apply Hb. lia.
Qed.

(** X13.  The thread kernels return one result per thread id, in order.
    Each result has [depth <= max_depth] (0 when [max_depth] is not
    positive), its [final_value] is the value after [depth] applications
    of the Collatz map to the id, an id of at most 1 is returned unchanged
    at depth 0, and an id between 1 and 1000000 ends between 1 and
    3000001.  The CPU kernel computes the same ids, values and depths as
    the GPU kernel, unless [worker_threads = 0], in which case it
    raises. *)
Theorem thread_kernels (thread_ids : list Z) (max_depth : Z) :
  map thread_id (process_thread_batch_gpu thread_ids max_depth) = thread_ids
  ∧ Forall (λ r,
      (depth r ≤ Z.to_nat max_depth)%nat
      ∧ final_value r = Nat.iter (depth r) collatz_next (thread_id r)
      ∧ ((thread_id r ≤ 1)%Z →
         depth r = 0%nat ∧ final_value r = thread_id r)
      ∧ ((1 ≤ thread_id r ≤ 1000000)%Z → (1 ≤ final_value r ≤ 3000001)%Z)
      ∧ thread_processed_by r = "gpu")
      (process_thread_batch_gpu thread_ids max_depth)
  ∧ process_thread_batch_cpu 0 thread_ids max_depth
    = raise "float division by zero"
  ∧ ∀ w, w ≠ 0%Z →
      ∃ rs, process_thread_batch_cpu w thread_ids max_depth = ok rs
        ∧ map (λ r, (thread_id r, final_value r, depth r)) rs
          = map (λ r, (thread_id r, final_value r, depth r))
              (process_thread_batch_gpu thread_ids max_depth)
        ∧ Forall (λ r, thread_processed_by r = "cpu") rs.
Proof.
  unfold process_thread_batch_gpu, process_thread_batch_cpu.
  split_and!.
  - rewrite map_map. rewrite <- (map_id thread_ids) at 2.
    apply map_ext. intros n. unfold process_thread.
    by destruct (thread_walk _ n 0).
  - apply Forall_map, Forall_forall. intros n _. unfold process_thread.
    destruct (thread_walk_trace (Z.to_nat max_depth) n 0)
      as (k & Hd & Hk & Hval & Hsmall & Hb).
    destruct (thread_walk (Z.to_nat max_depth) n 0) as [v d]. simpl in *.
    subst d. split_and!; [lia|done| |done|done].
    intros Hn. rewrite Hval, (Hsmall Hn). done.
  - done.
  - intros w Hw. apply Z.eqb_neq in Hw. rewrite Hw. eexists. split; [done|].
    split.
    + rewrite !map_map. apply map_ext. intros n. unfold process_thread.
      by destruct (thread_walk _ n 0).
    + apply Forall_map, Forall_forall. intros n _. unfold process_thread.
      by destruct (thread_walk _ n 0).
Qed.

(** ** Ranges and batches *)

Lemma range_nil a n : (n ≤ a)%Z → range a n = [].
Proof.
  intros H. unfold range. by replace (Z.to_nat (n - a)) with 0%nat by lia.
Qed.

Lemma range_cons a n : (a < n)%Z → range a n = a :: range (a + 1) n.
Proof.
  intros H. unfold range.
  replace (Z.to_nat (n - a)) with (S (Z.to_nat (n - (a + 1)))) by lia.
  simpl. f_equal; [lia|].
  rewrite <- seq_shift, map_map. apply map_ext. intros i. lia.
Qed.

Lemma range_length a n : length (range a n) = Z.to_nat (n - a).
Proof. unfold range. by rewrite length_map, length_seq. Qed.

Lemma range_app a m n :
  (a ≤ m ≤ n)%Z → range a m ++ range m n = range a n.
Proof.
  intros H. remember (Z.to_nat (m - a)) as k eqn:Hk.
  revert a H Hk. induction k as [|k IH]; intros a H Hk.
  - assert (m = a) as -> by lia. by rewrite (range_nil a a) by lia.
  - rewrite (range_cons a m), (range_cons a n) by lia. simpl. f_equal.
    apply IH; lia.
Qed.

Lemma range_batches b n fuel : ∀ a,
  (1 ≤ b)%Z → (Z.to_nat (n - a) ≤ fuel)%nat →
  concat (map (λ s, range s (Z.min (s + b) n)) (range_up fuel a n b))
  = range a n.
Proof.
  induction fuel as [|fuel IH]; intros a Hb Hfuel; simpl.
  - rewrite range_nil; [done|lia].
  - destruct (a <? n)%Z eqn:Han.
    + apply Z.ltb_lt in Han. simpl. rewrite IH by lia.
      destruct (Z.le_gt_cases n (a + b)).
      * rewrite Z.min_r by lia. rewrite (range_nil (a + b) n) by lia.
        by rewrite app_nil_r.
      * rewrite Z.min_l by lia. apply range_app. lia.
    + apply Z.ltb_ge in Han. by rewrite range_nil.
Qed.

Lemma concat_map_map {A B C} (f : B → C) (g : A → list B) (l : list A) :
  concat (map (λ x, map f (g x)) l) = map f (concat (map g l)).
Proof.
  induction l as [|x l IH]; simpl; [done|]. by rewrite IH, map_app.
Qed.

Lemma concat_map_nil {A B} (g : A → list B) (l : list A) :
  (∀ x, x ∈ l → g x = []) → concat (map g l) = [].
Proof.
  induction l as [|x l IH]; simpl; [done|]. intros H.
  rewrite (H x) by (by left). apply IH. intros y Hy. apply H. by right.
Qed.

(** X14.  What [execute_thread_job] does with its parameters.  On a GPU
    node with a positive [batch_size] the batches cover the thread ids
    [0 .. thread_count - 1] exactly once and in order, so the job reports
    what one pass over all ids would; with [batch_size = 0] it raises the
    [ValueError] of [range]; with a negative [batch_size] it succeeds
    having processed no thread at all.  On a CPU node [batch_size] is
    ignored: all ids are processed in one pass, unless
    [worker_threads = 0], in which case the job raises. *)
Theorem execute_thread_job_outcome (gpu : bool) (w : Z) (t1 t2 : Q)
    (p : parameters) :
  let tc := default 100%Z (thread_count p) in
  let md := default 5%Z (max_depth p) in
  let bs := default (if gpu then 64%Z else 16%Z) (batch_size p) in
  let all tag := map (process_thread tag md) (range 0 tc) in
  let report tag rs :=
    mk_thread_job_result (length rs) (max_depth_of rs) (t2 - t1) tag
      (take 10 rs) in
  (gpu = true → (1 ≤ bs)%Z →
   execute_thread_job gpu w t1 t2 p = ok (report "gpu" (all "gpu"))
   ∧ length (all "gpu") = Z.to_nat tc)
  ∧ (gpu = true → bs = 0%Z →
     execute_thread_job gpu w t1 t2 p
     = raise "range() arg 3 must not be zero")
  ∧ (gpu = true → (bs < 0)%Z →
     execute_thread_job gpu w t1 t2 p = ok (report "gpu" []))
  ∧ (gpu = false → w ≠ 0%Z →
     execute_thread_job gpu w t1 t2 p = ok (report "cpu" (all "cpu"))
     ∧ length (all "cpu") = Z.to_nat tc)
  ∧ (gpu = false → w = 0%Z →
     execute_thread_job gpu w t1 t2 p = raise "float division by zero").
Proof.
  simpl. unfold execute_thread_job. split_and!.
  - intros -> Hbs. unfold range_step.
    assert ((default 64 (batch_size p) =? 0)%Z = false) as ->
      by (apply Z.eqb_neq; lia).
    assert ((0 <? default 64 (batch_size p))%Z = true) as ->
      by (apply Z.ltb_lt; lia).
    unfold process_thread_batch_gpu.
    rewrite concat_map_map, range_batches by lia.
    split; [done|]. rewrite length_map, range_length. f_equal. lia.
  - intros -> Hbs. unfold range_step. by rewrite Hbs.
  - intros -> Hbs. unfold range_step.
    assert ((default 64 (batch_size p) =? 0)%Z = false) as ->
      by (apply Z.eqb_neq; lia).
    assert ((0 <? default 64 (batch_size p))%Z = false) as ->
      by (apply Z.ltb_ge; lia).
    rewrite concat_map_nil; [done|].
    intros s _. unfold process_thread_batch_gpu.
    rewrite range_nil; [done|lia].
  - intros -> Hw. unfold process_thread_batch_cpu.
    apply Z.eqb_neq in Hw. rewrite Hw.
    split; [done|]. rewrite length_map, range_length. f_equal. lia.
  - intros -> ->. done.
Qed.

Lemma execute_thread_job_outcome_witness :
  ∃ r, execute_thread_job true 4 0 1
         (mk_parameters (Some 5%Z) None (Some (-1)%Z) None None) = ok r
       ∧ threads_processed r = 0%nat.
Proof.
  destruct (execute_thread_job_outcome true 4 0 1
              (mk_parameters (Some 5%Z) None (Some (-1)%Z) None None))
    as (_ & _ & H & _).
  eexists. split; [apply H; [reflexivity|reflexivity]|reflexivity].
Defined.


(** ** The Collatz job *)

Lemma fold_update_record_first_max rs :
  let rec := fold_left update_record rs (0%Z, 0%nat) in
  (∀ r, r ∈ rs → (steps r ≤ rec.2)%nat)
  ∧ ((rec = (0%Z, 0%nat) ∧ ∀ r, r ∈ rs → steps r = 0%nat)
     ∨ ∃ l1 r l2, rs = l1 ++ r :: l2 ∧ rec = (number r, steps r)
         ∧ (0 < steps r)%nat
         ∧ ∀ x, x ∈ l1 → (steps x < steps r)%nat).
Proof.
  simpl. induction rs as [|x rs IH] using rev_ind.
  - simpl. split; [by intros r H%elem_of_nil|].
    left. split; [done|]. by intros r H%elem_of_nil.
  - rewrite fold_left_app. simpl.
    destruct IH as [Hmax Hwho].
    set (rec := fold_left update_record rs (0%Z, 0%nat)) in *.
    unfold update_record. destruct (rec.2 <? steps x)%nat eqn:Hlt.
    + apply Nat.ltb_lt in Hlt. simpl. split.
      * intros r [Hr|Hr%list_elem_of_singleton]%elem_of_app;
          [|by subst r].
        specialize (Hmax r Hr). lia.
      * right. exists rs, x, []. split_and!; [done|done|lia|].
        intros y Hy. specialize (Hmax y Hy). lia.
    + apply Nat.ltb_ge in Hlt. split.
      * intros r [Hr|Hr%list_elem_of_singleton]%elem_of_app;
          [by apply Hmax|by subst r].
      * destruct Hwho as [[Hrec Hzero]|(l1 & r & l2 & -> & Hrec & Hpos & Hl1)].
        -- left. split; [done|].
           intros r [Hr|Hr%list_elem_of_singleton]%elem_of_app;
             [by apply Hzero|]. subst r.
           rewrite Hrec in Hlt. simpl in Hlt. lia.
        -- right. exists l1, r, (l2 ++ [x]).
           split_and!; [by rewrite <- app_assoc|done|done|done].
Qed.

Lemma slice_batches {A} (l : list A) b fuel : ∀ a,
  (1 ≤ b)%Z → (0 ≤ a)%Z →
  (Z.to_nat (Z.of_nat (length l) - a) ≤ fuel)%nat →
  concat (map (λ s, slice l s (Z.min (s + b) (Z.of_nat (length l))))
            (range_up fuel a (Z.of_nat (length l)) b))
  = drop (Z.to_nat a) l.
Proof.
  induction fuel as [|fuel IH]; intros a Hb Ha Hfuel; simpl.
  - rewrite drop_ge; [done|lia].
  - destruct (a <? Z.of_nat (length l))%Z eqn:Han.
    + apply Z.ltb_lt in Han. simpl. rewrite IH by lia. unfold slice.
      destruct (Z.le_gt_cases (Z.of_nat (length l)) (a + b)).
      * rewrite Z.min_r by lia.
        rewrite take_ge by (rewrite length_drop; lia).
        rewrite (drop_ge l (Z.to_nat (a + b))) by lia.
        apply app_nil_r.
      * rewrite Z.min_l by lia.
        replace (Z.to_nat (a + b - a)) with (Z.to_nat b) by lia.
        replace (Z.to_nat (a + b)) with (Z.to_nat a + Z.to_nat b)%nat by lia.
        rewrite <- drop_drop. apply take_drop.
    + apply Z.ltb_ge in Han. rewrite drop_ge; [done|lia].
Qed.

Lemma fold_batches {A B} (g : A → list B) (upd : Z * nat → B → Z * nat)
    (starts : list A) : ∀ res rec,
  fold_left (λ '(results, records) s,
               (results ++ g s, fold_left upd (g s) records))
    starts (res, rec)
  = (res ++ concat (map g starts),
     fold_left upd (concat (map g starts)) rec).
Proof.
  induction starts as [|s starts IH]; intros res rec; simpl.
  - by rewrite app_nil_r.
  - rewrite IH, fold_left_app. by rewrite <- app_assoc.
Qed.

(** X15.  [execute_collatz_job] on a CPU node with [worker_threads <> 0],
    or on a GPU node with a positive [batch_size], processes the numbers
    [start_number .. start_number + number_count - 1] once each and in
    order (the GPU batches neither drop nor repeat a number).  Its record
    [most_steps] is the first number, in that order, whose step count is
    the largest of all, with that count; when every step count is 0 the
    record stays at number 0 with 0 steps.  A GPU node with
    [batch_size = 0] raises, as does a CPU node with
    [worker_threads = 0]. *)
Theorem execute_collatz_job_records (gpu : bool) (w : Z) (t1 t2 : Q)
    (p : parameters) :
  let start := default 1%Z (start_number p) in
  let count := default 1000%Z (number_count p) in
  let bs := default (if gpu then 1024%Z else 64%Z) (batch_size p) in
  let tag := if gpu then "gpu" else "cpu" in
  let rs := map (calculate_collatz tag) (range start (start + count)) in
  ((gpu = true ∧ (1 ≤ bs)%Z) ∨ (gpu = false ∧ w ≠ 0%Z) →
   ∃ r, execute_collatz_job gpu w t1 t2 p = ok r
     ∧ numbers_processed r = Z.to_nat count
     ∧ results_sample r = take 10 rs
     ∧ (∀ x, x ∈ rs → (steps x ≤ (most_steps r).2)%nat)
     ∧ ((most_steps r = (0%Z, 0%nat) ∧ ∀ x, x ∈ rs → steps x = 0%nat)
        ∨ ∃ l1 x l2, rs = l1 ++ x :: l2
            ∧ most_steps r = (number x, steps x)
            ∧ ∀ y, y ∈ l1 → (steps y < steps x)%nat))
  ∧ (gpu = true → bs = 0%Z →
     execute_collatz_job gpu w t1 t2 p
     = raise "range() arg 3 must not be zero")
  ∧ (gpu = false → w = 0%Z →
     execute_collatz_job gpu w t1 t2 p = raise "float division by zero").
Proof.
  simpl. split_and!.
  - set (start := default 1%Z (start_number p)).
    set (count := default 1000%Z (number_count p)).
    set (tag := if gpu then "gpu" else "cpu").
    set (rs := map (calculate_collatz tag) (range start (start + count))).
    intros Hcase.
    assert (Hrun : execute_collatz_job gpu w t1 t2 p
                   = ok (mk_collatz_job_result (length rs) (t2 - t1)
                           (fold_left update_record rs (0%Z, 0%nat)) tag
                           (match rs with
                            | [] => 0
                            | _ :: _ =>
                                inject_Z (Z.of_nat (sum_steps rs))
                                / inject_Z (Z.of_nat (length rs))
                            end)
                           (take 10 rs))).
    { unfold execute_collatz_job. fold start count.
      destruct Hcase as [[-> Hbs]|[-> Hw]]; simpl in *.
      - unfold range_step.
        assert ((default 1024 (batch_size p) =? 0)%Z = false) as ->
          by (apply Z.eqb_neq; lia).
        assert ((0 <? default 1024 (batch_size p))%Z = true) as ->
          by (apply Z.ltb_lt; lia).
        rewrite (fold_batches
                   (λ s, calculate_collatz_batch_gpu
                           (slice (range start (start + count)) s
                              (Z.min (s + default 1024%Z (batch_size p))
                                 (Z.of_nat
                                    (length (range start (start + count)))))))
                   update_record).
        unfold calculate_collatz_batch_gpu.
        rewrite concat_map_map, slice_batches by lia.
        done.
      - unfold calculate_collatz_batch_cpu.
        apply Z.eqb_neq in Hw. by rewrite Hw. }
    eexists. split; [exact Hrun|]. simpl.
    destruct (fold_update_record_first_max rs) as [Hmax Hwho].
    split_and!.
    + unfold rs. rewrite length_map, range_length. f_equal. lia.
    + done.
    + done.
    + destruct Hwho as [?|(l1 & x & l2 & ? & ? & _ & ?)]; [by left|].
      right. by exists l1, x, l2.
  - intros -> Hbs. unfold execute_collatz_job, range_step. by rewrite Hbs.
  - intros -> ->. done.
Qed.

Lemma execute_collatz_job_records_witness :
  ∃ r, execute_collatz_job false 4 0 1
         (mk_parameters None None None (Some 1%Z) (Some 10%Z)) = ok r
       ∧ numbers_processed r = 10%nat.
Proof.
  destruct (execute_collatz_job_records false 4 0 1
              (mk_parameters None None None (Some 1%Z) (Some 10%Z)))
    as (H & _).
  destruct H as (r & Hr & Hn & _); [right; split; [reflexivity|discriminate]|].
  exists r. split; [exact Hr|exact Hn].
Defined.


(** ** [execute_job] *)

Lemma execute_thread_job_raises gpu w t1 t2 p :
  (∃ e, execute_thread_job gpu w t1 t2 p = raise e)
  ↔ (gpu = true ∧ batch_size p = Some 0%Z) ∨ (gpu = false ∧ w = 0%Z).
Proof.
  unfold execute_thread_job, range_step, process_thread_batch_cpu.
  destruct gpu; simpl.
  - destruct (batch_size p) as [b|]; simpl.
    + destruct (b =? 0)%Z eqn:Hb.
      * apply Z.eqb_eq in Hb as ->. split; [by left|by eexists].
      * apply Z.eqb_neq in Hb.
        destruct (0 <? b)%Z; (split; [by intros [? ?]|]);
          intros [[_ [= ->]]|[? _]]; done.
    + split; [by intros [? ?]|]. by intros [[_ ?]|[? _]].
  - destruct (w =? 0)%Z eqn:Hw.
    + apply Z.eqb_eq in Hw as ->. split; [by right|by eexists].
    + apply Z.eqb_neq in Hw. split; [by intros [? ?]|].
      by intros [[? _]|[_ ?]].
Qed.

Lemma execute_collatz_job_raises gpu w t1 t2 p :
  (∃ e, execute_collatz_job gpu w t1 t2 p = raise e)
  ↔ (gpu = true ∧ batch_size p = Some 0%Z) ∨ (gpu = false ∧ w = 0%Z).
Proof.
  unfold execute_collatz_job, range_step, calculate_collatz_batch_cpu.
  destruct gpu; simpl.
  - destruct (batch_size p) as [b|]; simpl.
    + destruct (b =? 0)%Z eqn:Hb.
      * apply Z.eqb_eq in Hb as ->. split; [by left|by eexists].
      * apply Z.eqb_neq in Hb.
        destruct (0 <? b)%Z;
          (split; [|intros [[_ [= ->]]|[? _]]; done]);
          intros [e He]; by destruct (fold_left _ _ _).
    + split; [|by intros [[_ ?]|[? _]]].
      intros [e He]. by destruct (fold_left _ _ _).
  - destruct (w =? 0)%Z eqn:Hw.
    + apply Z.eqb_eq in Hw as ->. split; [by right|by eexists].
    + apply Z.eqb_neq in Hw. split; [by intros [? ?]|].
      by intros [[? _]|[_ ?]].
Qed.

Lemma run_job_raises st t1 t2 d :
  (∃ e, run_job st t1 t2 d = raise e)
  ↔ (job_kind d ≠ "thread" ∧ job_kind d ≠ "collatz")
    ∨ ((job_kind d = "thread" ∨ job_kind d = "collatz")
       ∧ ((gpu_enabled st = true ∧ batch_size (job_params d) = Some 0%Z)
          ∨ (gpu_enabled st = false ∧ worker_threads st = 0%Z))).
Proof.
  unfold run_job.
  destruct (decide (job_kind d = "thread")) as [Ht|Ht].
  - pose proof (execute_thread_job_raises (gpu_enabled st) (worker_threads st)
                  t1 t2 (job_params d)) as Hr.
    destruct (execute_thread_job _ _ _ _ _) as [r|e].
    + split; [by intros [? ?]|]. intros [[? _]|[_ Hc]]; [done|].
      apply Hr in Hc as [? ?]. done.
    + split; [|by eexists]. intros _. right. split; [by left|].
      apply Hr. by eexists.
  - destruct (decide (job_kind d = "collatz")) as [Hc|Hc].
    + pose proof (execute_collatz_job_raises (gpu_enabled st)
                    (worker_threads st) t1 t2 (job_params d)) as Hr.
      destruct (execute_collatz_job _ _ _ _ _) as [r|e].
      * split; [by intros [? ?]|]. intros [[_ ?]|[_ Hf]]; [done|].
        apply Hr in Hf as [? ?]. done.
      * split; [|by eexists]. intros _. right. split; [by right|].
        apply Hr. by eexists.
    + split; [|by eexists]. intros _. by left.
Qed.



(** ** The load score *)

Lemma job_score_nonneg (k : nat) (w : Z) :
  0 <= inject_Z (Z.of_nat k) / inject_Z (Z.max w 1).
Proof.
  apply Qle_shift_div_l.
  - unfold Qlt. simpl. lia.
  - rewrite Qmult_0_l. unfold Qle. simpl. lia.
Qed.

(** X17.  [calculate_load_score] never divides by zero: a thread count of
    1 or less, zero and negative values included, counts as 1, so the job
    term is then the number of current jobs.  With non-negative CPU and
    memory usage the score of a CPU node is at least 0 and that of a GPU
    node at least -0.2; a GPU node scores exactly 0.2 below a CPU node
    with the same usage, jobs and threads; an idle GPU node (no usage, no
    job) therefore scores below every CPU node. *)
Theorem calculate_load_score_bias (st st' : node_state) :
  ((worker_threads st ≤ 1)%Z →
   calculate_load_score st
   == cpu_usage st / 100 + memory_usage st / 100
      + inject_Z (Z.of_nat (size (current_jobs st)))
      + (if gpu_enabled st then - (2 # 10) else 0))
  ∧ (0 <= cpu_usage st → 0 <= memory_usage st →
     - (2 # 10) <= calculate_load_score st
     ∧ (gpu_enabled st = false → 0 <= calculate_load_score st))
  ∧ (gpu_enabled st = true → gpu_enabled st' = false →
     cpu_usage st = cpu_usage st' → memory_usage st = memory_usage st' →
     current_jobs st = current_jobs st' →
     worker_threads st = worker_threads st' →
     calculate_load_score st == calculate_load_score st' - (2 # 10))
  ∧ (gpu_enabled st = true → cpu_usage st == 0 → memory_usage st == 0 →
     current_jobs st = ∅ →
     gpu_enabled st' = false → 0 <= cpu_usage st' → 0 <= memory_usage st' →
     calculate_load_score st < calculate_load_score st').
Proof.
  assert (Hpos : ∀ s : node_state, 0 <= cpu_usage s → 0 <= memory_usage s →
            0 <= cpu_usage s / 100 + memory_usage s / 100
                 + inject_Z (Z.of_nat (size (current_jobs s)))
                   / inject_Z (Z.max (worker_threads s) 1)).
  { intros s Hc Hm.
    assert (H100 : ∀ x, 0 <= x → 0 <= x / 100).
    { intros x Hx. apply Qle_shift_div_l; [reflexivity|].
      by rewrite Qmult_0_l. }
    pose proof (job_score_nonneg (size (current_jobs s)) (worker_threads s))
      as Hj.
    rewrite <- (Qplus_0_l 0). apply Qplus_le_compat; [|exact Hj].
    rewrite <- (Qplus_0_l 0). apply Qplus_le_compat; by apply H100. }
  unfold calculate_load_score. split_and!.
  - intros Hw. rewrite Z.max_r by lia.
    change (inject_Z 1) with 1. destruct (gpu_enabled st); field.
  - intros Hc Hm. pose proof (Hpos st Hc Hm) as H. split.
    + destruct (gpu_enabled st).
      * rewrite <- (Qplus_0_l (- (2 # 10))) at 1.
        apply Qplus_le_compat; [done|apply Qle_refl].
      * rewrite Qplus_0_r. eapply Qle_trans; [|exact H]. done.
    + intros ->. by rewrite Qplus_0_r.
  - intros -> -> -> -> -> ->. ring.
  - intros -> Hc Hm -> -> Hc' Hm'. pose proof (Hpos st' Hc' Hm') as H.
    rewrite Hc, Hm, map_size_empty. rewrite Qplus_0_r.
    eapply Qlt_le_trans; [|exact H]. done.
Qed.

Lemma calculate_load_score_bias_witness :
  calculate_load_score (mk_node_state "worker-1" true 0 ∅ 0 0 true 0 0 0)
  < calculate_load_score (mk_node_state "worker-2" false 4 ∅ 0 0 true 50 50 0).
Proof.
  refine (proj2 (proj2 (proj2 (calculate_load_score_bias
            (mk_node_state "worker-1" true 0 ∅ 0 0 true 0 0 0)
            (mk_node_state "worker-2" false 4 ∅ 0 0 true 50 50 0))))
            _ _ _ _ _ _ _); try reflexivity; discriminate.
Defined.

End ClusterNodeProofs.

(** * Coordinator and worker together *)

(** X18.  A job in flight, active under its id, is executed by a worker and
    the coordinator handles the worker's answer.  When the worker answers
    500 the job is marked failed with the error
    [Node returned status 500], it stays in the active map, and neither
    the coordinator's statistics nor the worker's [completed_jobs] change.
    When the worker answers 200 the job moves to the completed map with
    the answer as its result and its execution time measured by the
    coordinator, [total_calculations] and the worker's [completed_jobs]
    each grow by one.  A job whose type is neither [thread] nor [collatz],
    which [submit_job] accepts, always gets the 500. *)
Theorem dispatch_execute_roundtrip
    (decode : json → ClusterNode.parameters)
    (encode : ClusterNode.execute_response → json)
    (s : coordinator) (r : nat) (j : job) (ta : Q)
    (st : ClusterNode.node_state) (t0 t1 t2 t3 now later : Q) :
  in_flight s = Some r →
  job_store s !! r = Some j →
  active_jobs s !! job_ident j = Some r →
  job_assigned_at j = Some ta →
  let st' := (ClusterNode.execute_job t0 t1 t2 t3 (job_data_of decode j) st).1 in
  let resp := (ClusterNode.execute_job t0 t1 t2 t3 (job_data_of decode j) st).2 in
  let s' := assign_job_to_node_reply now later (worker_reply encode resp) s in
  (ClusterNode.response_code resp = 500%Z →
   job_store s' !! r = Some (mark_failed now "Node returned status 500" j)
   ∧ active_jobs s' !! job_ident j = Some r
   ∧ completed_jobs s' = completed_jobs s
   ∧ stats s' = stats s
   ∧ ClusterNode.completed_jobs st' = ClusterNode.completed_jobs st)
  ∧ (ClusterNode.response_code resp = 200%Z →
     active_jobs s' !! job_ident j = None
     ∧ completed_jobs s' !! job_ident j = Some r
     ∧ job_store s' !! r
       = Some (set_execution_time (now - ta)
                 (mark_completed now (encode resp) j))
     ∧ total_calculations (stats s') = S (total_calculations (stats s))
     ∧ ClusterNode.completed_jobs st' = S (ClusterNode.completed_jobs st))
  ∧ (job_type j ≠ "thread" → job_type j ≠ "collatz" →
     ClusterNode.response_code resp = 500%Z).
Proof.
  intros Hfl Hj Hact Hat. simpl.
  destruct (ClusterNodeProofs.run_job_raises st t1 t2 (job_data_of decode j))
    as [Hr1 Hr2].
  unfold ClusterNode.execute_job in *.
  destruct (ClusterNode.run_job st t1 t2 (job_data_of decode j))
    as [result|e]; simpl.
  - (* the worker answers 200 *)
    split_and!; [done| |].
    2:{ intros Ht Hc. destruct Hr2 as [? ?]; [by left|done]. }
    intros _.
    unfold assign_job_to_node_reply, worker_reply. rewrite Hfl, Hj. simpl.
    set (s0 := with_in_flight None s).
    set (res := encode _).
    destruct (handle_job_completion now (job_ident j) res s0)
      as [s1 out] eqn:Heq.
    destruct (handle_job_completion_cases _ _ _ _ _ _ Heq)
      as [(_ & _ & [Hn|(r' & Hr' & Hn)])
         |[(r' & j' & Hact' & Hj' & Hat' & _)
          |(r' & j' & t' & Hact' & Hj' & Hat' & Ha & Hc & Hst & Hrest)]];
      simpl in *; try congruence.
    assert (r' = r) as -> by congruence.
    assert (j' = j) as -> by congruence.
    assert (t' = ta) as -> by congruence.
    assert (Htot : total_calculations (stats s1)
                   = S (total_calculations (stats s))).
    { destruct Hrest as [(n & _ & _ & _ & -> & _)
                        |(_ & _ & [(_ & _ & -> & _)|(_ & _ & -> & _)])];
        try done. by destruct (_ && _). }
    assert (Hfinal : (match out with
                      | returned => s1
                      | raised e => handle_job_failure later (job_ident j) e s1
                      end) = s1).
    { destruct out; [done|]. unfold handle_job_failure.
      by rewrite Ha, lookup_delete_eq. }
    rewrite Hfinal, Ha, Hc, Hst.
    split_and!; [apply lookup_delete_eq|apply lookup_insert_eq| |done|done].
    apply list_lookup_insert_eq. by eapply lookup_lt_Some.
  - (* the worker answers 500 *)
    split_and!; [|done|done].
    intros _.
    unfold assign_job_to_node_reply, worker_reply. rewrite Hfl, Hj. simpl.
    unfold handle_job_failure. simpl. rewrite Hact, Hj. simpl.
    split_and!; try done.
    apply list_lookup_insert_eq. by eapply lookup_lt_Some.
Qed.

Lemma dispatch_execute_roundtrip_witness :
  completed_jobs
    (assign_job_to_node_reply 3 3
       (worker_reply (λ _, "{}")
          (ClusterNode.execute_job 2 2 3 3
             (job_data_of no_parameters
                (mk_job "job_2000_0" "thread" "normal" "{}" 2 assigned
                   (Some "N2") true (Some 2) None None None None None))
             worker_2).2)
       sent_default_job) !! "job_2000_0"
  = Some 0%nat.
Proof.
  refine (proj1 (proj2 (proj1 (proj2
    (dispatch_execute_roundtrip no_parameters (λ _, "{}") sent_default_job 0
       (mk_job "job_2000_0" "thread" "normal" "{}" 2 assigned
          (Some "N2") true (Some 2) None None None None None)
       2 worker_2 2 2 3 3 3 3 eq_refl _ _ eq_refl)) _))).
  - vm_compute. reflexivity.
  - vm_compute. reflexivity.
  - vm_compute. reflexivity.
Defined.

(** ** Registered workers stay registered *)

Lemma step_keeps_node k o s :
  is_Some (dict_get k (nodes s)) → is_Some (dict_get k (nodes (step o s))).
Proof.
  intros Hk.
  destruct o as [now data|now data|now data|now|now later out|now|now];
    cbn [step].
  - by apply dict_get_set_is_Some.
  - unfold heartbeat. destruct (dict_get (hb_node_id data) (nodes s)); [|done].
    by apply dict_get_set_is_Some.
  - by destruct (submit_job_nodes_stats now data s) as [-> _].
  - by destruct (assign_jobs_nodes_stats now s) as [-> _].
  - unfold assign_job_to_node_reply.
    destruct (in_flight s) as [r|]; [|done].
    destruct (job_store s !! r) as [j|]; [|done].
    set (s0 := with_in_flight None s).
    assert (Hfail : ∀ t e s1, is_Some (dict_get k (nodes s1)) →
              is_Some (dict_get k (nodes (handle_job_failure t (job_ident j) e s1)))).
    { intros t e s1 H.
      by destruct (handle_job_failure_nodes_stats t (job_ident j) e s1)
        as [-> _]. }
    destruct out as [code body|msg]; [|by apply Hfail].
    destruct (decide (code = 200%Z)); [|by apply Hfail].
    destruct body as [result|msg]; [|by apply Hfail].
    destruct (handle_job_completion now (job_ident j) result s0)
      as [s1 out] eqn:Heq.
    assert (Hs1 : is_Some (dict_get k (nodes s1))).
    { destruct (handle_job_completion_cases _ _ _ _ _ _ Heq)
        as [(-> & _)|[(r' & j' & _ & _ & _ & -> & _)
                     |(r' & j' & t' & _ & _ & _ & _ & _ & _ & Hrest)]];
        [done|done|].
      destruct Hrest as [(n & _ & _ & -> & _)|(_ & -> & _)]; [|done].
      by apply dict_get_set_is_Some. }
    destruct out; [done|]. by apply Hfail.
  - unfold monitor_nodes.
    pose proof (sweep_nodes_get now (stats s) (nodes s) k) as Hget.
    destruct (sweep_nodes now (stats s) (nodes s)) as [d evs]. simpl in *.
    rewrite Hget. by apply fmap_is_Some.
  - done.
Qed.

Lemma run_keeps_node k ops : ∀ s,
  is_Some (dict_get k (nodes s)) → is_Some (dict_get k (nodes (run ops s))).
Proof.
  induction ops as [|o ops IH]; intros s Hk; [done|].
  simpl. by apply IH, step_keeps_node.
Qed.

(** X19.  A worker's registration creates its record (address
    [<node_id>:8080], the worker's GPU flag and thread count, online,
    counters at zero).  From then on, whatever the coordinator does in
    between, every heartbeat of the worker is acknowledged with status 200
    and leaves the node online, with [last_heartbeat] the clock reading
    and with the [load_score] that the worker's [calculate_load_score]
    gave. *)
Theorem registered_worker_heartbeats (capabilities : list string)
    (st st' : ClusterNode.node_state) (t_reg now : Q) (s : coordinator)
    (ops : list op) :
  ClusterNode.node_id st' = ClusterNode.node_id st →
  let nid := Some (ClusterNode.node_id st) in
  let s1 := (register_node t_reg
               (ClusterNode.registration_data capabilities st) s).1 in
  let s2 := run ops s1 in
  dict_get nid (nodes s1)
    = Some (mk_node nid (Some (ClusterNode.node_id st +:+ ":8080"))
              capabilities (ClusterNode.gpu_enabled st)
              (ClusterNode.worker_threads st) online t_reg 0 0 0)
  ∧ (heartbeat now (ClusterNode.heartbeat_payload st') s2).2
    = mk_response 200 "acknowledged"
  ∧ ∃ n, dict_get nid
           (nodes (heartbeat now (ClusterNode.heartbeat_payload st') s2).1)
         = Some n
      ∧ node_state n = online
      ∧ node_last_heartbeat n = now
      ∧ node_load_score n = ClusterNode.calculate_load_score st'.
Proof.
  intros Hid. simpl.
  assert (H1 : dict_get (Some (ClusterNode.node_id st))
                 (nodes (register_node t_reg
                           (ClusterNode.registration_data capabilities st) s).1)
               = Some (mk_node (Some (ClusterNode.node_id st))
                         (Some (ClusterNode.node_id st +:+ ":8080"))
                         capabilities (ClusterNode.gpu_enabled st)
                         (ClusterNode.worker_threads st) online t_reg 0 0 0)).
  { simpl. apply dict_get_set_eq. }
  split; [exact H1|].
  destruct (run_keeps_node (Some (ClusterNode.node_id st)) ops _
              (mk_is_Some _ _ H1)) as [n Hn].
  remember (run ops _) as s2 eqn:Hs2. clear Hs2 H1.
  unfold heartbeat.
  change (hb_node_id (ClusterNode.heartbeat_payload st'))
    with (Some (ClusterNode.node_id st')).
  rewrite Hid, Hn. simpl.
  split; [done|]. eexists. split; [apply dict_get_set_eq|done].
Qed.

Lemma registered_worker_heartbeats_witness :
  (heartbeat 50 (ClusterNode.heartbeat_payload worker_2)
     (run [Monitor 100]
        (register_node 0 (ClusterNode.registration_data [] worker_2)
           (init 0)).1)).2
  = mk_response 200 "acknowledged".
Proof.
  exact (proj1 (proj2 (registered_worker_heartbeats [] worker_2 worker_2 0 50
                         (init 0) [Monitor 100] eq_refl))).
Defined.
